(** * Type-ahead search widget (assets/scripts/main.js)

    A shallow embedding of the script's coordination logic and the
    properties its specification states about it:

    - [Helpers]       : [Helpers.debounce] over an explicit timer table;
    - [Main]          : the constants and the success callback of the load
                        handler (truncate with [splice], then [map]);
    - [searchHistory] : the history list ([add], [remove], [isDuplicate],
                        [updateList], [toggle]);
    - [iTunes]        : [HttpRequest], [iTunesApi.searchTrack] and the
                        debounced [onChange] handler, run against a transport
                        whose [abort] behaviour is a parameter;
    - [DateTime]      : [Helpers.formatDateTime];
    - [Page]          : the load handler, which ties the input, the results
                        list and the history list together.

    JavaScript strings are modelled by [string]; a character stands for one
    code unit, so [String.length] is the script's [.length]. *)

From Stdlib Require Import Ascii DecimalString DecimalNat.
From stdpp Require Import list strings.

Local Open Scope string_scope.
Local Open Scope list_scope.
Local Open Scope nat_scope.

(** ** Array primitives used by the script *)

(** [Array.prototype.splice(start, deleteCount)] for [0 <= start]: the
    removed elements are returned and the array keeps the others.  The
    result is the pair (returned array, array after the call). *)
Definition splice {A} (start deleteCount : nat) (arr : list A) : list A * list A :=
  (take deleteCount (drop start arr),
   take start arr ++ drop (start + deleteCount) arr).

(** [Array.prototype.forEach] with a callback that may change the array it
    iterates over: the length is read once, and an index that is no longer
    in the array is skipped.  [n] counts the indices still to visit, [k] is
    the current one. *)
Fixpoint forEach_from {A} (callback : A → nat → list A → list A)
    (n k : nat) (arr : list A) : list A :=
  match n with
  | 0 => arr
  | S n' =>
      forEach_from callback n' (S k)
        (match arr !! k with
         | Some item => callback item k arr
         | None => arr
         end)
  end.

Definition forEach {A} (callback : A → nat → list A → list A) (arr : list A) : list A :=
  forEach_from callback (length arr) 0 arr.

(** ** [Helpers.debounce] *)

Module Helpers.
Section debounce.

(** What one invocation of the debounced function captures: [this] and
    [arguments]. *)
Variable Args : Type.

(** The [time] parameter, in milliseconds. *)
Variable time : nat.

(** An entry of the browser's table of active timers: the handle that
    [setTimeout] returned, the instant it is due and the arguments its
    closure holds. *)
Record Timer := { handle : nat; due : nat; args : Args }.

(** [now] is the clock, [timeout] the closure variable of that name
    ([None] for [undefined] and [null]), [timers] the timer table,
    [next_handle] the next handle [setTimeout] returns and [calls] the
    invocations of [callback] so far, each with the instant it ran. *)
Record State := {
  now : nat;
  timeout : option nat;
  timers : list Timer;
  next_handle : nat;
  calls : list (nat * Args)
}.

Definition initial (now0 : nat) : State :=
  {| now := now0; timeout := None; timers := []; next_handle := 0; calls := [] |}.

Definition clearTimeout (h : option nat) (table : list Timer) : list Timer :=
  match h with
  | Some i => filter (λ t, handle t ≠ i) table
  | None => table
  end.

(** The function [debounce] returns, called with [a]. *)
Definition debounced (a : Args) (s : State) : State :=
  {| now := now s;
     timeout := Some (next_handle s);
     timers := clearTimeout (timeout s) (timers s)
               ++ [{| handle := next_handle s; due := now s + time; args := a |}];
     next_handle := S (next_handle s);
     calls := calls s |}.

(** The function handed to [setTimeout], run when timer [t] expires. *)
Definition expire (t : Timer) (s : State) : State :=
  {| now := now s;
     timeout := None;
     timers := filter (λ t', handle t' ≠ handle t) (timers s);
     next_handle := next_handle s;
     calls := calls s ++ [(due t, args t)] |}.

(** [d] milliseconds pass: the timers that come due run, oldest first (all
    timers have the same delay, so the table is ordered by due time). *)
Definition elapse (d : nat) (s : State) : State :=
  let s' := foldl (λ s t, expire t s) s (filter (λ t, due t ≤ now s + d) (timers s)) in
  {| now := now s + d;
     timeout := timeout s';
     timers := timers s';
     next_handle := next_handle s';
     calls := calls s' |}.

Inductive Event := Call (a : Args) | Wait (d : nat).

Definition step (e : Event) (s : State) : State :=
  match e with
  | Call a => debounced a s
  | Wait d => elapse d s
  end.

Definition run (es : list Event) (s : State) : State :=
  foldl (λ s e, step e s) s es.

(** A burst: each call is followed by a pause. *)
Definition burst (l : list (Args * nat)) : list Event :=
  l ≫= (λ '(a, gap), [Call a; Wait gap]).

Definition gaps (l : list (Args * nat)) : nat := sum_list (snd <$> l).

(** No call of [callback] yet, and every timer in the table is the one
    [timeout] holds and is not yet due. *)
Definition quiet (s : State) : Prop :=
  calls s = []
  ∧ Forall (λ t, timeout s = Some (handle t) ∧ now s < due t) (timers s).

End debounce.

Arguments handle {Args}.
Arguments due {Args}.
Arguments args {Args}.
Arguments now {Args}.
Arguments timeout {Args}.
Arguments timers {Args}.
Arguments next_handle {Args}.
Arguments calls {Args}.
Arguments initial {Args}.
Arguments clearTimeout {Args}.
Arguments debounced {Args}.
Arguments expire {Args}.
Arguments elapse {Args}.
Arguments Call {Args}.
Arguments Wait {Args}.
Arguments step {Args}.
Arguments run {Args}.
Arguments burst {Args}.
Arguments gaps {Args}.
Arguments quiet {Args}.

End Helpers.

(** ** The load handler's constants and its success callback *)

Module Main.

Definition MIN_TERM_LENGTH : nat := 3.
Definition MAX_RESULTS : nat := 5.

(** One element of [data.results]. *)
Record Track := { artistName : string; trackName : string }.

(** [result.artistName + ' - ' + result.trackName] *)
Definition display_string (result : Track) : string :=
  artistName result +:+ " - " +:+ trackName result.

(** [data.results.splice(0, MAX_RESULTS).map(...)]: the value of
    [formattedResults], paired with the contents of [data.results] once the
    expression has been evaluated. *)
Definition formattedResults (results : list Track) : list string * list Track :=
  let '(removed, rest) := splice 0 MAX_RESULTS results in
  (display_string <$> removed, rest).

End Main.

(** ** The search history list *)

Module searchHistory.

Record Entry := { created : Z; title : string }.

(** [data] is [self.data], [display] is [listElement.style.display] and
    [warnings] collects the titles passed to [console.warn].  The list items
    that [updateList] rebuilds from [data] carry no state of their own. *)
Record State := {
  data : list Entry;
  display : string;
  warnings : list string
}.

Definition initial (display0 : string) : State :=
  {| data := []; display := display0; warnings := [] |}.

Definition toggle (show : bool) (s : State) : State :=
  {| data := data s;
     display := if show then "block" else "none";
     warnings := warnings s |}.

Definition updateList (s : State) : State :=
  toggle (0 <? length (data s)) s.

Definition isDuplicate (t : string) (s : State) : bool :=
  existsb (λ item, String.eqb (title item) t) (data s).

(** [now] is the value of [new Date()] at the call. *)
Definition add (now : Z) (t : string) (s : State) : State :=
  if isDuplicate t s then
    {| data := data s; display := display s; warnings := warnings s ++ [t] |}
  else
    updateList
      {| data := data s ++ [{| created := now; title := t |}];
         display := display s;
         warnings := warnings s |}.

(** The callback handed to [forEach] in [remove]. *)
Definition remove_callback (t : string) (item : Entry) (index : nat)
    (arr : list Entry) : list Entry :=
  if String.eqb (title item) t then (splice index 1 arr).2 else arr.

Definition remove (t : string) (s : State) : State :=
  updateList
    {| data := forEach (remove_callback t) (data s);
       display := display s;
       warnings := warnings s |}.

(** The operations the page performs on the list: a click on a search
    result calls [add], a click on an entry's button calls [remove]. *)
Inductive Op := Add (now : Z) (t : string) | Remove (t : string).

Definition apply (op : Op) (s : State) : State :=
  match op with
  | Add now t => add now t s
  | Remove t => remove t s
  end.

Definition run (ops : list Op) (s : State) : State :=
  foldl (λ s op, apply op s) s ops.

(** The stores the page can be in. *)
Definition reachable (s : State) : Prop :=
  ∃ display0 ops, s = run ops (initial display0).

Definition titles (s : State) : list string := title <$> data s.

Definition occurrences (t : string) (s : State) : nat :=
  length (filter (λ item, title item = t) (data s)).

End searchHistory.

(** ** [HttpRequest], [iTunesApi] and the [onChange] handler *)

Module iTunes.
Import Main.

(** The script reaches the catalogue through [XMLHttpRequest] and
    [encodeURIComponent], which are not part of it.  What the script depends
    on is what [abort()] does to a request in flight, and on which terms
    [encodeURIComponent] returns:
    - [abort_dispatches]: before it returns, [abort()] dispatches
      [readystatechange] with [readyState] DONE and [status] 0 (the request
      error steps of the XMLHttpRequest Standard);
    - [abort_stops_delivery]: nothing is dispatched on the request once
      [abort()] has returned;
    - [encodes t]: [encodeURIComponent(t)] returns; it throws [URIError] on
      a term that holds a lone surrogate.  Which characters of a [string]
      stand for surrogates is the platform's. *)
Record Transport := {
  abort_dispatches : bool;
  abort_stops_delivery : bool;
  encodes : string → bool
}.

(** The browser's object does both.  No character stands for a surrogate. *)
Definition XMLHttpRequest : Transport :=
  {| abort_dispatches := true; abort_stops_delivery := true;
     encodes := λ _, true |}.

(** A transport whose [abort()] only stops the request. *)
Definition silent_transport : Transport :=
  {| abort_dispatches := false; abort_stops_delivery := true;
     encodes := λ _, true |}.

(** A transport whose [abort()] is best effort: the outcome may still come. *)
Definition late_transport : Transport :=
  {| abort_dispatches := false; abort_stops_delivery := false;
     encodes := λ _, true |}.

(** The browser again, [bad] being a term that holds a lone surrogate. *)
Definition with_lone_surrogate (bad : string) : Transport :=
  {| abort_dispatches := true; abort_stops_delivery := true;
     encodes := λ t, negb (String.eqb t bad) |}.

Definition DONE : nat := 4.

(** A request is in flight from [send] until its outcome is dispatched
    ([Done]) or [abort()] is called on it ([Aborted]). *)
Inductive Phase := InFlight | Aborted | Done.

#[global] Instance Phase_eq_dec : EqDecision Phase.
Proof. solve_decision. Defined.

(** A request made by [HttpRequest]: the term in its URL, its phase and
    whether [onreadystatechange] still holds the handler of lines 61-78. *)
Record Xhr := {
  term : string;
  phase : Phase;
  onreadystatechange : bool
}.

(** [request.response]: the parsed body with its [results] array, or [None]
    when there is none ([null], or a body without [results]). *)
Definition Response := option (list Track).

(** [xhrs] holds every request made so far, a request's handle being its
    index; [request] is the variable of that name in [iTunesApi]; [data] is
    [gui.searchResults.data]; [errors] collects the [console.error] calls of
    the error callback, each with the request it was called on. *)
Record State := {
  xhrs : list Xhr;
  request : option nat;
  data : list string;
  errors : list (nat * Response)
}.

Definition initial : State :=
  {| xhrs := []; request := None; data := []; errors := [] |}.

Definition set_xhrs (f : list Xhr → list Xhr) (s : State) : State :=
  {| xhrs := f (xhrs s); request := request s; data := data s; errors := errors s |}.

Definition set_phase (p : Phase) (x : Xhr) : Xhr :=
  {| term := term x; phase := p; onreadystatechange := onreadystatechange x |}.

Definition clear_handler (x : Xhr) : Xhr :=
  {| term := term x; phase := phase x; onreadystatechange := false |}.

(** [gui.searchResults.set] and [gui.searchResults.empty]. *)
Definition set (items : list string) (s : State) : State :=
  {| xhrs := xhrs s; request := request s; data := items; errors := errors s |}.

Definition empty (s : State) : State :=
  {| xhrs := xhrs s; request := request s; data := []; errors := errors s |}.

(** The three callbacks [searchTrack] hands to [HttpRequest].  [success]
    throws when [data.results] cannot be read. *)
Definition success (response : Response) (s : State) : option State :=
  match response with
  | Some results => Some (set (formattedResults results).1 s)
  | None => None
  end.

Definition error (id : nat) (response : Response) (s : State) : State :=
  {| xhrs := xhrs s; request := request s; data := data s;
     errors := errors s ++ [(id, response)] |}.

Definition complete (s : State) : State :=
  {| xhrs := xhrs s; request := None; data := data s; errors := errors s |}.

(** The handler of lines 61-78, installed on request [id], run with the
    request's [readyState], [status] and [response].  An exception thrown by
    [success] leaves the handler at once. *)
Definition handler (id readyState status : nat) (response : Response)
    (s : State) : State :=
  if readyState =? DONE then
    match (if status =? 200 then success response s
           else Some (error id response s)) with
    | Some s' => set_xhrs (alter clear_handler id) (complete s')
    | None => s
    end
  else s.

(** [readystatechange] is dispatched on request [id]. *)
Definition dispatch (id readyState status : nat) (response : Response)
    (s : State) : State :=
  match xhrs s !! id with
  | Some x => if onreadystatechange x then handler id readyState status response s else s
  | None => s
  end.

(** [request.abort()]. *)
Definition abort (tr : Transport) (id : nat) (s : State) : State :=
  match xhrs s !! id with
  | Some x =>
      match phase x with
      | InFlight =>
          let s' := set_xhrs (alter (set_phase Aborted) id) s in
          if abort_dispatches tr then dispatch id DONE 0 None s' else s'
      | _ => s
      end
  | None => s
  end.

(** Line 104: [if (request) request.abort()]. *)
Definition abort_request (tr : Transport) (s : State) : State :=
  match request s with
  | Some id => abort tr id s
  | None => s
  end.

(** Lines 108-116: [request = new HttpRequest(...)]. *)
Definition HttpRequest (t : string) (s : State) : State :=
  {| xhrs := xhrs s ++ [{| term := t; phase := InFlight; onreadystatechange := true |}];
     request := Some (length (xhrs s));
     data := data s;
     errors := errors s |}.

(** Lines 103-117.  The settings of line 108 are evaluated before
    [HttpRequest] is called: when [encodeURIComponent] throws at line 110,
    the abort of line 104 has been done and no request is made. *)
Definition searchTrack (tr : Transport) (t : string) (s : State) : State :=
  if encodes tr t then HttpRequest t (abort_request tr s) else abort_request tr s.

(** The test of line 355: [!value || value.length < MIN_TERM_LENGTH]. *)
Definition too_short (value : string) : bool :=
  String.eqb value "" || (String.length value <? MIN_TERM_LENGTH).

(** The function given to [gui.searchInput.onChange]. *)
Definition onChange (tr : Transport) (value : string) (s : State) : State :=
  if too_short value then empty s else searchTrack tr value s.

(** May the transport still dispatch on this request? *)
Definition deliverable (tr : Transport) (x : Xhr) : bool :=
  match phase x with
  | InFlight => true
  | Aborted => negb (abort_stops_delivery tr)
  | Done => false
  end.

(** The transport reports [readyState], [status] and [response] on request
    [id]; with [readyState] DONE a request in flight is done. *)
Definition readystatechange (tr : Transport) (id readyState status : nat)
    (response : Response) (s : State) : State :=
  match xhrs s !! id with
  | Some x =>
      if deliverable tr x then
        dispatch id readyState status response
          (if (readyState =? DONE) && bool_decide (phase x = InFlight)
           then set_xhrs (alter (set_phase Done) id) s else s)
      else s
  | None => s
  end.

(** What happens to the page: the debounced input handler fires with the
    input's value, or the transport reports on a request. *)
Inductive Event :=
| Change (value : string)
| ReadyStateChange (id readyState status : nat) (response : Response).

Definition step (tr : Transport) (e : Event) (s : State) : State :=
  match e with
  | Change value => onChange tr value s
  | ReadyStateChange id readyState status response =>
      readystatechange tr id readyState status response s
  end.

Definition run (tr : Transport) (es : list Event) (s : State) : State :=
  foldl (λ s e, step tr e s) s es.

Definition phase_of (s : State) (id : nat) : option Phase :=
  phase <$> xhrs s !! id.

(** The [console.error] calls made on request [id]. *)
Definition errors_of (id : nat) (s : State) : list (nat * Response) :=
  filter (λ e, e.1 = id) (errors s).

(** After [abort()] has returned, the handler of the aborted request does not
    run again: [abort()] ran it, and it removed itself, or the transport
    dispatches nothing more. *)
Definition abort_is_final (tr : Transport) : bool :=
  abort_dispatches tr || abort_stops_delivery tr.

(** No request is in flight. *)
Definition idle (s : State) : Prop :=
  ∀ id x, xhrs s !! id = Some x → phase x ≠ InFlight.

(** What holds of every state the page reaches on such a transport: a
    request in flight is the one [request] holds, has its handler and has
    logged nothing; an aborted request has logged what [abort()] dispatched
    and nothing else; no entry of the log names a request yet to be made. *)
Record consistent (tr : Transport) (s : State) : Prop := {
  in_flight_current : ∀ id x,
    xhrs s !! id = Some x → phase x = InFlight →
    request s = Some id ∧ onreadystatechange x = true ∧ errors_of id s = [];
  aborted_settled : ∀ id x,
    xhrs s !! id = Some x → phase x = Aborted →
    if abort_dispatches tr
    then onreadystatechange x = false ∧ errors_of id s = [(id, None)]
    else abort_stops_delivery tr = true ∧ errors_of id s = [];
  unknown_unlogged : ∀ id, length (xhrs s) ≤ id → errors_of id s = []
}.

End iTunes.

(** ** [Helpers.formatDateTime] *)

Module DateTime.

(** What [formatDateTime] reads from its argument: the results of
    [getFullYear], [getMonth] (0 to 11), [getDate], [getHours] and
    [getMinutes].  The dates the page formats come from [new Date()], so the
    year is not negative. *)
Record Date := {
  getFullYear : nat;
  getMonth : nat;
  getDate : nat;
  getHours : nat;
  getMinutes : nat
}.

(** The ranges of the getters. *)
Definition in_range (d : Date) : bool :=
  (getMonth d <? 12) && (1 <=? getDate d) && (getDate d <=? 31)
  && (getHours d <? 24) && (getMinutes d <? 60).

(** A number turned into a string by [+]: its decimal digits. *)
Definition toString (n : nat) : string :=
  NilEmpty.string_of_uint (Nat.to_uint n).

(** [n < 10 ? '0' + n : n], then used as a string. *)
Definition pad (n : nat) : string :=
  if n <? 10 then "0" +:+ toString n else toString n.

Definition formatDateTime (date : Date) : string :=
  let year := getFullYear date in
  let month := getMonth date + 1 in
  let day := getDate date in
  let hours := getHours date in
  let minutes := getMinutes date in
  toString year +:+ "-" +:+ pad month +:+ "-" +:+ toString day
  +:+ " " +:+ toString hours +:+ ":" +:+ pad minutes.

(** Does the character occur in the string? *)
Fixpoint occurs (c : Ascii.ascii) (s : string) : bool :=
  match s with
  | EmptyString => false
  | String c' s' => Ascii.eqb c c' || occurs c s'
  end.

(** The characters [formatDateTime] puts between the numbers. *)
Definition separator (c : Ascii.ascii) : Prop :=
  c = "-"%char ∨ c = " "%char ∨ c = ":"%char.

End DateTime.

(** ** Calls and runs of a debounced function *)

Module Timeline.
Section timeline.
Import Helpers.

Variable Args : Type.
Variable time : nat.

(** The arguments of the calls of the debounced function among the events,
    in order. *)
Definition called (es : list (Event Args)) : list Args :=
  es ≫= (λ e, match e with Call a => [a] | Wait _ => [] end).

(** The runs of [callback] when every call of a burst that starts at [t] is
    let through: each call runs [time] later. *)
Fixpoint runs_of (t : nat) (l : list (Args * nat)) : list (nat * Args) :=
  match l with
  | [] => []
  | (a, gap) :: l' => (t + time, a) :: runs_of (t + gap) l'
  end.

(** What every state of the debounced function satisfies, [cs] being the
    arguments of the calls so far and [now0] the start: at most one timer, the
    one [timeout] holds, and no more runs and timers than calls. *)
Definition tidy (now0 : nat) (cs : list Args) (s : State Args) : Prop :=
  (timers s = []
   ∨ ∃ t, timers s = [t] ∧ timeout s = Some (handle t) ∧ args t ∈ cs)
  ∧ length (calls s) + length (timers s) ≤ length cs
  ∧ Forall (λ c, c.2 ∈ cs ∧ now0 + time ≤ c.1 ≤ now s) (calls s)
  ∧ Forall (λ t, now0 + time ≤ due t) (timers s)
  ∧ now0 ≤ now s.

End timeline.

Arguments called {Args}.
Arguments runs_of {Args}.
Arguments tidy {Args}.

End Timeline.

(** ** What the session does over a sequence of events *)

Module Searches.
Import iTunes.

(** The values among the events that are long enough to be searched for and
    that [encodeURIComponent] accepts, in order. *)
Definition searched (tr : Transport) (es : list Event) : list string :=
  es ≫= (λ e, match e with
              | Change value =>
                  if too_short value then []
                  else if encodes tr value then [value] else []
              | ReadyStateChange _ _ _ _ => []
              end).

(** [request] is empty or holds the request made last. *)
Definition newest (s : State) : Prop :=
  ∀ id, request s = Some id → S id = length (xhrs s).

(** A request has at most one entry in the error log, and none while its
    handler is installed or before it is made. *)
Definition logged_once (s : State) : Prop :=
  ∀ id,
    length (errors_of id s) ≤ 1
    ∧ (∀ x, xhrs s !! id = Some x → onreadystatechange x = true → errors_of id s = [])
    ∧ (length (xhrs s) ≤ id → errors_of id s = []).

End Searches.

(** ** The page *)

Module Page.
Import Main.

Definition DEBOUNCE_TIME : nat := 250.

(** What a click lands on: the search input, option [i] of the results list,
    the button of entry [j] of the history list, or anything else. *)
Inductive Target :=
| OnInput
| OnResult (i : nat)
| OnRemove (j : nat)
| Elsewhere.

(** [value] is the input's value, [debouncer] the timer state of the
    debounced [input] listener (the listener is called with the event, which
    carries nothing the callback reads), [session] the state of [iTunesApi]
    and of the results' data, [results_display] the [display] style of the
    results list and [history] the history list. *)
Record State := {
  value : string;
  debouncer : Helpers.State unit;
  session : iTunes.State;
  results_display : string;
  history : searchHistory.State
}.

Definition initial (value0 results_display0 history_display0 : string) (now0 : nat) : State :=
  {| value := value0;
     debouncer := Helpers.initial now0;
     session := iTunes.initial;
     results_display := results_display0;
     history := searchHistory.initial history_display0 |}.

(** [gui.searchResults.toggle]. *)
Definition toggle (show : bool) (p : State) : State :=
  {| value := value p; debouncer := debouncer p; session := session p;
     results_display := if show then "block" else "none";
     history := history p |}.

(** The user changes the input's value: the [input] event reaches the
    debounced listener. *)
Definition input (v : string) (p : State) : State :=
  {| value := v;
     debouncer := Helpers.debounced DEBOUNCE_TIME () (debouncer p);
     session := session p;
     results_display := results_display p;
     history := history p |}.

(** Time passes.  Every timer that expires runs the listener of lines
    135-137, which hands the input's value, as it is then, to the change
    handler; the runs are the entries [elapse] adds to [calls]. *)
Definition wait (tr : iTunes.Transport) (d : nat) (p : State) : State :=
  let debouncer' := Helpers.elapse d (debouncer p) in
  let runs := length (Helpers.calls debouncer') - length (Helpers.calls (debouncer p)) in
  {| value := value p;
     debouncer := debouncer';
     session := Nat.iter runs (iTunes.onChange tr (value p)) (session p);
     results_display := results_display p;
     history := history p |}.

Definition set_history (h : searchHistory.State) (p : State) : State :=
  {| value := value p; debouncer := debouncer p; session := session p;
     results_display := results_display p; history := h |}.

(** The listener of the element clicked: an option calls
    [gui.searchHistory.add] with its item, a button calls [remove] with its
    entry's title.  The options are those of the data displayed and the
    buttons those of the entries listed. *)
Definition element_listener (target : Target) (now : Z) (p : State) : State :=
  match target with
  | OnResult i =>
      match iTunes.data (session p) !! i with
      | Some item => set_history (searchHistory.add now item (history p)) p
      | None => p
      end
  | OnRemove j =>
      match searchHistory.data (history p) !! j with
      | Some entry =>
          set_history (searchHistory.remove (searchHistory.title entry) (history p)) p
      | None => p
      end
  | OnInput | Elsewhere => p
  end.

(** The [click] listener of the document, lines 153-156. *)
Definition document_listener (target : Target) (p : State) : State :=
  match target with
  | OnInput => p
  | _ => toggle false p
  end.

Inductive Event :=
| Input (v : string)
| Wait (d : nat)
| ReadyStateChange (id readyState status : nat) (response : iTunes.Response)
| Focus
| Click (target : Target) (now : Z).

Definition step (tr : iTunes.Transport) (e : Event) (p : State) : State :=
  match e with
  | Input v => input v p
  | Wait d => wait tr d p
  | ReadyStateChange id readyState status response =>
      {| value := value p; debouncer := debouncer p;
         session := iTunes.readystatechange tr id readyState status response (session p);
         results_display := results_display p;
         history := history p |}
  | Focus => toggle true p
  | Click target now => document_listener target (element_listener target now p)
  end.

Definition run (tr : iTunes.Transport) (es : list Event) (p : State) : State :=
  foldl (λ p e, step tr e p) p es.

(** Keystrokes, each followed by a pause. *)
Definition typing (l : list (string * nat)) : list Event :=
  l ≫= (λ '(v, gap), [Input v; Wait gap]).

(** The texts of the records the transport has delivered. *)
Definition offered (es : list Event) : list string :=
  es ≫= (λ e, match e with
              | ReadyStateChange _ _ _ (Some results) => display_string <$> results
              | _ => []
              end).

(** Does the event leave the results list as it is shown? *)
Definition keeps_display (e : Event) : bool :=
  match e with
  | Click OnInput _ => true
  | Click _ _ | Focus => false
  | _ => true
  end.

(** No timer of the debounced listener is pending, or the one [timeout]
    holds is, and is not due yet. *)
Definition settled (d : Helpers.State unit) : Prop :=
  Helpers.timers d = []
  ∨ ∃ t, Helpers.timers d = [t] ∧ Helpers.timeout d = Some (Helpers.handle t)
         ∧ Helpers.now d < Helpers.due t.

End Page.

(** * Properties *)

(** ** The history list *)

Section history.
Import searchHistory.

Lemma splice_one {A} (k : nat) (arr : list A) :
  (splice k 1 arr).2 = delete k arr.
Proof. unfold splice; simpl. by rewrite Nat.add_1_r, delete_take_drop. Qed.

Lemma isDuplicate_titles t s : isDuplicate t s = true ↔ t ∈ titles s.
Proof.
  unfold isDuplicate, titles. induction (data s) as [|item l IH]; simpl.
  - split; [done|]. by intros ?%elem_of_nil.
  - rewrite orb_true_iff, IH, elem_of_cons, String.eqb_eq. intuition congruence.
Qed.

Lemma forEach_from_beyond {A} (cb : A → nat → list A → list A) n k arr :
  length arr ≤ k → forEach_from cb n k arr = arr.
Proof.
  revert k arr. induction n as [|n IH]; intros k arr Hk; [done|]. simpl.
  rewrite (lookup_ge_None_2 arr k) by done. apply IH. lia.
Qed.

(** The loop of [remove] leaves an array without the title as it is. *)
Lemma remove_loop_no_match t n k arr :
  Forall (λ item, title item ≠ t) (drop k arr) →
  forEach_from (remove_callback t) n k arr = arr.
Proof.
  revert k arr. induction n as [|n IH]; intros k arr Hno; [done|]. simpl.
  assert (Forall (λ item, title item ≠ t) (drop (S k) arr)) as Hno'.
  { replace (S k) with (k + 1) by lia. rewrite <- drop_drop. by apply Forall_drop. }
  destruct (arr !! k) as [item|] eqn:Hk; [|by apply IH].
  assert (title item ≠ t) as Hne.
  { rewrite Forall_forall in Hno. apply Hno.
    apply list_elem_of_lookup. exists 0. by rewrite lookup_drop, Nat.add_0_r. }
  unfold remove_callback. apply String.eqb_neq in Hne. rewrite Hne. by apply IH.
Qed.

Lemma filter_no_match t (l : list Entry) :
  Forall (λ item, title item ≠ t) l → filter (λ item, title item ≠ t) l = l.
Proof.
  induction 1 as [|x l Hx _ IH]; [done|]. by rewrite filter_cons_True, IH.
Qed.

(** With unique titles the loop of [remove], started at [rest], is a filter:
    once the entry is spliced out no other entry has the title, so the
    entry the loop steps over is never one to delete. *)
Lemma remove_loop_unique t rest : ∀ pre n,
  NoDup (title <$> rest) → length rest ≤ n →
  forEach_from (remove_callback t) n (length pre) (pre ++ rest)
  = pre ++ filter (λ item, title item ≠ t) rest.
Proof.
  induction rest as [|x rest IH]; intros pre n Hnd Hn.
  - rewrite filter_nil, !app_nil_r. by apply forEach_from_beyond.
  - destruct n as [|n]; [simpl in Hn; lia|]. simpl in Hn. simpl.
    rewrite fmap_cons, NoDup_cons in Hnd. destruct Hnd as [Hx Hnd].
    rewrite list_lookup_middle by done. unfold remove_callback at 2.
    destruct (String.eqb (title x) t) eqn:Heq.
    + apply String.eqb_eq in Heq.
      assert (Forall (λ item, title item ≠ t) rest) as Hno.
      { apply Forall_forall. intros y Hy Hty. apply Hx.
        rewrite Heq, <- Hty. by apply list_elem_of_fmap_2. }
      rewrite splice_one, delete_middle.
      rewrite filter_cons_False by (intros ?; done).
      rewrite filter_no_match by done.
      apply remove_loop_no_match.
      replace (S (length pre)) with (length pre + 1) by lia.
      rewrite drop_app_add. by apply Forall_drop.
    + apply String.eqb_neq in Heq. rewrite filter_cons_True by done.
      specialize (IH (pre ++ [x]) n Hnd). rewrite length_app in IH. simpl in IH.
      rewrite Nat.add_1_r, <- !app_assoc in IH. simpl in IH. apply IH. lia.
Qed.


Lemma remove_data_unique t s :
  NoDup (titles s) →
  data (remove t s) = filter (λ item, title item ≠ t) (data s).
Proof.
  intros Hnd. unfold remove, forEach. simpl.
  apply (remove_loop_unique t (data s) [] (length (data s))); done.
Qed.

Lemma remove_data_absent t s : t ∉ titles s → data (remove t s) = data s.
Proof.
  intros Hno. unfold remove, forEach. simpl.
  apply remove_loop_no_match. apply Forall_drop, Forall_forall.
  intros item Hitem Ht. apply Hno. rewrite <- Ht. by apply list_elem_of_fmap_2.
Qed.

Lemma add_data now t s :
  data (add now t s)
  = if bool_decide (t ∈ titles s) then data s
    else data s ++ [{| created := now; title := t |}].
Proof.
  unfold add. pose proof (isDuplicate_titles t s) as Hd.
  destruct (isDuplicate t s); case_bool_decide; try done.
  - exfalso. tauto.
  - exfalso. destruct Hd as [_ Hd]. by specialize (Hd ltac:(done)).
Qed.

Lemma run_snoc ops op s : run (ops ++ [op]) s = apply op (run ops s).
Proof. unfold run. by rewrite foldl_snoc. Qed.

(** The lists the page can hold have unique titles. *)
Lemma reachable_unique s : reachable s → NoDup (titles s).
Proof.
  intros (d0 & ops & ->). induction ops as [|op ops IH] using rev_ind.
  - apply NoDup_nil_2.
  - rewrite run_snoc. set (s := run ops (initial d0)) in *. destruct op as [now t|t]; simpl.
    + unfold titles. rewrite add_data. case_bool_decide as Hin; [done|].
      rewrite fmap_app. apply NoDup_app. split; [done|]. split.
      * intros x Hx [->|[]%elem_of_nil]%elem_of_cons. done.
      * apply NoDup_singleton.
    + unfold titles. rewrite remove_data_unique by done.
      eapply sublist_NoDup; [exact IH|]. apply fmap_sublist, sublist_filter.
Qed.

Lemma reachable_step op s : reachable s → reachable (apply op s).
Proof.
  intros (d0 & ops & ->). exists d0, (ops ++ [op]). by rewrite run_snoc.
Qed.

Lemma occurrences_absent t s : t ∉ titles s → occurrences t s = 0.
Proof.
  unfold occurrences, titles. induction (data s) as [|x l IH]; [done|].
  rewrite fmap_cons, not_elem_of_cons. intros [Hx Hl].
  rewrite filter_cons_False by (intros ?; done). by apply IH.
Qed.

Lemma occurrences_unique t s :
  NoDup (titles s) → t ∈ titles s → occurrences t s = 1.
Proof.
  unfold occurrences, titles. induction (data s) as [|x l IH]; simpl.
  - by intros _ ?%elem_of_nil.
  - rewrite NoDup_cons. intros [Hx Hnd] [Ht|Ht]%elem_of_cons.
    + rewrite filter_cons_True by done. simpl. f_equal.
      apply (occurrences_absent t {| data := l; display := ""; warnings := [] |}).
      unfold titles; simpl. by rewrite Ht.
    + rewrite filter_cons_False; [by apply IH|]. intros Hxt. apply Hx. by rewrite Hxt.
Qed.


(** A list with an entry is shown: the entry came from an [add] that ran
    [updateList]. *)
Lemma invisible_or_block ops display0 :
  let s := run ops (initial display0) in data s ≠ [] → display s = "block".
Proof.
  induction ops as [|op ops IH] using rev_ind; [done|].
  rewrite run_snoc. simpl in *. set (s := run ops (initial display0)) in *.
  destruct op as [now t|t]; simpl.
  - unfold add. destruct (isDuplicate t s); [done|]. simpl.
    rewrite length_app. simpl. by rewrite Nat.add_1_r.
  - unfold remove. simpl. destruct (forEach _ _); done.
Qed.

End history.

(** ** The success callback *)

Section formatter_claims.
Import Main.

(** C6: the success callback displays the first [min (length results) 5]
    records of the response, in the order received, each as
    [artistName - trackName]; seven records give the first five. *)
Theorem formattedResults_first_five (results : list Track) :
  (formattedResults results).1 = display_string <$> take 5 results
  ∧ length (formattedResults results).1 = length results `min` 5
  ∧ (∀ i, (formattedResults results).1 !! i
          = if decide (i < 5)
            then (λ r, artistName r +:+ " - " +:+ trackName r) <$> results !! i
            else None)
  ∧ (∀ r1 r2 r3 r4 r5 r6 r7,
       (formattedResults [r1; r2; r3; r4; r5; r6; r7]).1
       = [display_string r1; display_string r2; display_string r3;
          display_string r4; display_string r5]).
Proof.
  split; [done|]. split; [|split; [|done]].
  - change (length (display_string <$> take 5 results) = length results `min` 5).
    rewrite length_fmap, length_take. lia.
  - intros i. change (formattedResults results).1 with (display_string <$> take 5 results).
    rewrite list_lookup_fmap, lookup_take. by destruct (decide (i < 5)).
Qed.

(** C7, as the code has it: the callback truncates with [splice], which takes
    the records it returns out of the array it is applied to; afterwards
    [data.results] holds the records from position 5 on, in order, and the
    records taken together with the records left are the original array. *)
Theorem formattedResults_consumes_input (results : list Track) :
  (formattedResults results).2 = drop 5 results
  ∧ length (formattedResults results).2 = length results - 5
  ∧ take 5 results ++ (formattedResults results).2 = results.
Proof.
  change (formattedResults results).2 with (drop 5 results).
  split; [done|]. split; [apply length_drop | apply take_drop].
Qed.

(** C7 fails as stated: with seven records the caller's array is left with
    the last two. *)
Lemma formattedResults_mutates_input :
  let track n := {| artistName := "A"; trackName := n |} in
  let input := track <$> ["T1"; "T2"; "T3"; "T4"; "T5"; "T6"; "T7"] in
  (formattedResults input).2 = [track "T6"; track "T7"]
  ∧ (formattedResults input).2 ≠ input.
Proof. split; [reflexivity | discriminate]. Qed.

End formatter_claims.

Section history_claims.
Import searchHistory.

(** C8: [add] with a title already in the list only warns: the entries, their
    order and their timestamps stay as they are; a new title is appended with
    the current time.  Adding a title twice leaves one entry with it, and
    Song1, Song1, Song2 gives the list Song1, Song2. *)
Theorem history_add (now : Z) (t : string) (s : State) :
  (t ∈ titles s →
     add now t s
     = {| data := data s; display := display s; warnings := warnings s ++ [t] |})
  ∧ (t ∉ titles s →
     data (add now t s) = data s ++ [{| created := now; title := t |}]
     ∧ warnings (add now t s) = warnings s)
  ∧ (reachable s → ∀ now', occurrences t (add now' t (add now t s)) = 1)
  ∧ (∀ display0 n1 n2 n3,
       titles (run [Add n1 "Song1"; Add n2 "Song1"; Add n3 "Song2"] (initial display0))
       = ["Song1"; "Song2"]).
Proof.
  split; [|split; [|split; [|done]]].
  - intros Hin. apply isDuplicate_titles in Hin. unfold add. by rewrite Hin.
  - intros Hout. rewrite add_data. rewrite bool_decide_eq_false_2 by done.
    split; [done|]. unfold add.
    destruct (isDuplicate t s) eqn:Hd; [|done]. by apply isDuplicate_titles in Hd.
  - intros Hr now'.
    assert (reachable (add now t s)) as Hr1 by apply (reachable_step (Add now t) s Hr).
    assert (reachable (add now' t (add now t s))) as Hr2
      by apply (reachable_step (Add now' t) _ Hr1).
    apply occurrences_unique; [by apply reachable_unique|].
    assert (t ∈ titles (add now t s)) as Hin.
    { unfold titles. rewrite add_data. case_bool_decide; [done|].
      rewrite fmap_app. apply elem_of_app. right. apply list_elem_of_here. }
    unfold titles at 1. rewrite add_data. by rewrite bool_decide_eq_true_2.
Qed.

(** The theorem on the list holding X. *)
Lemma history_add_witness :
  let s := run [Add 1 "X"] (initial "") in
  add 2 "X" s = {| data := data s; display := display s; warnings := ["X"] |}
  ∧ data (add 2 "Y" s) = data s ++ [{| created := 2; title := "Y" |}]
  ∧ occurrences "X" (add 3 "X" (add 2 "X" s)) = 1.
Proof.
  cbv zeta.
  destruct (history_add 2 "X" (run [Add 1 "X"] (initial ""))) as (Hdup & _ & Htwice & _).
  destruct (history_add 2 "Y" (run [Add 1 "X"] (initial ""))) as (_ & Hnew & _).
  split; [|split].
  - apply Hdup. vm_compute. apply list_elem_of_here.
  - apply Hnew. vm_compute. by intros [?|[]%elem_of_nil]%elem_of_cons.
  - apply Htwice. by exists "", [Add 1 "X"].
Defined.

(** C9: on every list the page can hold, [remove] deletes the entries with
    the given title; with a title that is not in the list the entries stay
    as they are; [remove] never writes to the console. *)
Theorem history_remove (t : string) (s : State) :
  warnings (remove t s) = warnings s
  ∧ (t ∉ titles s → data (remove t s) = data s)
  ∧ (reachable s →
     data (remove t s) = filter (λ item, title item ≠ t) (data s)
     ∧ t ∉ titles (remove t s)).
Proof.
  split; [done|]. split; [apply remove_data_absent|].
  intros Hr. rewrite remove_data_unique by by apply reachable_unique.
  split; [done|]. unfold titles. rewrite remove_data_unique by by apply reachable_unique.
  intros (item & Ht & Hin)%list_elem_of_fmap.
  apply list_elem_of_filter in Hin. by destruct Hin.
Qed.

(** The theorem on the list X, Y, Z. *)
Lemma history_remove_witness :
  let s := run [Add 1 "X"; Add 2 "Y"; Add 3 "Z"] (initial "") in
  data (remove "W" s) = data s
  ∧ data (remove "Y" s) = [{| created := 1; title := "X" |}; {| created := 3; title := "Z" |}].
Proof.
  cbv zeta. split.
  - destruct (history_remove "W" (run [Add 1 "X"; Add 2 "Y"; Add 3 "Z"] (initial "")))
      as (_ & Habsent & _).
    apply Habsent. vm_compute. intros H. repeat (apply elem_of_cons in H as [H|H]; [discriminate|]).
    by apply elem_of_nil in H.
  - destruct (history_remove "Y" (run [Add 1 "X"; Add 2 "Y"; Add 3 "Z"] (initial "")))
      as (_ & _ & Hrem).
    destruct Hrem as [Hrem _]; [by exists "", [Add 1 "X"; Add 2 "Y"; Add 3 "Z"]|].
    rewrite Hrem. reflexivity.
Defined.

(** Outside the lists the page can hold: of two adjacent entries with the
    title, [remove] deletes the first and steps over the second. *)
Lemma remove_adjacent_duplicates (c1 c2 : Z) (d : string) (w : list string) :
  data (remove "X"
          {| data := [{| created := c1; title := "X" |}; {| created := c2; title := "X" |}];
             display := d; warnings := w |})
  = [{| created := c2; title := "X" |}].
Proof. reflexivity. Qed.

(** C10: after every [add] and every [remove] the list is shown exactly when
    it has an entry. *)
Theorem history_visibility (display0 : string) (ops : list Op) (op : Op) :
  let s := run (ops ++ [op]) (initial display0) in
  display s = if bool_decide (data s = []) then "none" else "block".
Proof.
  rewrite run_snoc. simpl. pose proof (invisible_or_block ops display0) as Hinv.
  simpl in Hinv. set (s := run ops (initial display0)) in *.
  destruct op as [now t|t]; simpl.
  - unfold add. destruct (isDuplicate t s) eqn:Hd; [|simpl; by destruct (data s)]. simpl.
    apply isDuplicate_titles in Hd. case_bool_decide as He.
    + unfold titles in Hd. rewrite He in Hd. by apply elem_of_nil in Hd.
    + by apply Hinv.
  - unfold remove; simpl. by destruct (forEach _ _).
Qed.

End history_claims.

(** ** Debounce *)

Section debounce_claims.
Import Helpers.
Context {Args : Type}.
Variable time : nat.
Implicit Types (s : State Args) (a : Args).

(** A call in a quiet state replaces the timer table by one fresh timer. *)
Lemma debounced_quiet a s :
  quiet s →
  debounced time a s
  = {| now := now s; timeout := Some (next_handle s);
       timers := [{| handle := next_handle s; due := now s + time; args := a |}];
       next_handle := S (next_handle s); calls := [] |}.
Proof.
  intros [Hc Ht]. unfold debounced. rewrite Hc. f_equal.
  destruct (timeout s) as [h|]; simpl.
  - replace (filter _ (timers s)) with (@nil (Timer Args)); [done|].
    symmetry. induction Ht as [|t l [Hh _] _ IH]; [done|].
    rewrite filter_cons_False; [done|]. intros Hne. apply Hne. congruence.
  - destruct Ht as [|t l [Hh _] _]; done.
Qed.

Lemma elapse_not_due d a h D T n c :
  T + d < D →
  elapse d {| now := T; timeout := Some h;
              timers := [{| handle := h; due := D; args := a |}];
              next_handle := n; calls := c |}
  = {| now := T + d; timeout := Some h;
       timers := [{| handle := h; due := D; args := a |}];
       next_handle := n; calls := c |}.
Proof.
  intros Hlt. unfold elapse. simpl. by rewrite filter_cons_False, filter_nil by (simpl; lia).
Qed.

Lemma elapse_due d a h D T n c :
  D ≤ T + d →
  elapse d {| now := T; timeout := Some h;
              timers := [{| handle := h; due := D; args := a |}];
              next_handle := n; calls := c |}
  = {| now := T + d; timeout := None; timers := [];
       next_handle := n; calls := c ++ [(D, a)] |}.
Proof.
  intros Hle. unfold elapse. simpl. rewrite filter_cons_True, filter_nil by (simpl; lia).
  simpl. by rewrite filter_cons_False, filter_nil by (simpl; intros H; by apply H).
Qed.

Lemma elapse_idle d s :
  timers s = [] →
  elapse d s = {| now := now s + d; timeout := timeout s; timers := [];
                  next_handle := next_handle s; calls := calls s |}.
Proof. intros Ht. unfold elapse. rewrite Ht. simpl. by rewrite Ht. Qed.

(** A burst whose pauses are shorter than the delay keeps the state quiet. *)
Lemma run_burst earlier : ∀ s,
  Forall (λ p, p.2 < time) earlier → quiet s →
  quiet (run time (burst earlier) s)
  ∧ now (run time (burst earlier) s) = now s + gaps earlier
  ∧ next_handle (run time (burst earlier) s) = next_handle s + length earlier.
Proof.
  induction earlier as [|[a gap] l IH]; intros s Hgaps Hq.
  - change (gaps (@nil (Args * nat))) with 0. simpl. split; [done|]. split; lia.
  - apply Forall_cons in Hgaps as [Hgap Hgaps]. simpl in Hgap.
    change (burst ((a, gap) :: l)) with ([Call a; Wait gap] ++ burst l).
    unfold run. rewrite foldl_app. simpl. rewrite (debounced_quiet a s Hq).
    rewrite elapse_not_due by lia.
    match goal with |- context [foldl _ ?s0 (burst l)] => specialize (IH s0 Hgaps) end.
    destruct IH as (IH1 & IH2 & IH3).
    { split; [done|]. repeat constructor; simpl; lia. }
    split; [exact IH1|]. unfold run in *. rewrite IH2, IH3.
    change (gaps ((a, gap) :: l)) with (gap + gaps l).
    cbn [now next_handle length]. split; lia.
Qed.

Lemma run_cons e es s : run time (e :: es) s = run time es (step time e s).
Proof. reflexivity. Qed.

Lemma run_snoc_call es a s :
  run time (es ++ [Call a]) s = debounced time a (run time es s).
Proof. unfold run. by rewrite foldl_snoc. Qed.

Lemma run_waits_idle ds : ∀ s,
  timers s = [] →
  calls (run time (Wait <$> ds) s) = calls s ∧ timers (run time (Wait <$> ds) s) = [].
Proof.
  induction ds as [|d ds IH]; intros s Ht; [done|].
  rewrite fmap_cons, run_cons. cbn [step]. rewrite (elapse_idle d s Ht).
  exact (IH {| now := now s + d; timeout := timeout s; timers := [];
               next_handle := next_handle s; calls := calls s |} eq_refl).
Qed.

(** With one timer armed and no further call, the callback has run exactly
    when the pauses add up to the timer's due time. *)
Lemma run_waits_armed ds : ∀ d a h D T n,
  T ≤ D →
  let s := {| now := T; timeout := Some h;
              timers := [{| handle := h; due := D; args := a |}];
              next_handle := n; calls := [] |} in
  calls (run time (Wait <$> d :: ds) s)
  = (if decide (D ≤ T + sum_list (d :: ds)) then [(D, a)] else [])
  ∧ timers (run time (Wait <$> d :: ds) s)
    = (if decide (D ≤ T + sum_list (d :: ds)) then [] else timers s).
Proof.
  induction ds as [|d' ds IH]; intros d a h D T n HT s; subst s;
    rewrite fmap_cons, run_cons; cbn [step].
  - change (sum_list [d]) with (d + 0). rewrite Nat.add_0_r.
    cbn [fmap list_fmap run foldl].
    destruct (decide (D ≤ T + d)) as [Hd|Hd].
    + by rewrite elapse_due by done.
    + by rewrite elapse_not_due by lia.
  - change (sum_list (d :: d' :: ds)) with (d + sum_list (d' :: ds)).
    destruct (decide (D ≤ T + d)) as [Hd|Hd].
    + rewrite elapse_due by done.
      destruct (decide (D ≤ T + (d + sum_list (d' :: ds)))); [|lia].
      by apply (run_waits_idle (d' :: ds)).
    + rewrite elapse_not_due by lia.
      destruct (IH d' a h D (T + d) n ltac:(lia)) as [IH1 IH2].
      rewrite IH1, IH2. rewrite Nat.add_assoc. by destruct (decide _).
Qed.

(** C5: calls of the debounced function that follow each other within the
    delay run [callback] once, [time] after the last of them and with its
    arguments; nothing runs before that, and nothing more afterwards. *)
Theorem debounce_collapse (now0 : nat) (earlier : list (Args * nat)) (last : Args)
    (pause : nat) (pauses : list nat) :
  Forall (λ p, p.2 < time) earlier →
  let s := run time (burst earlier ++ [Call last]) (initial now0) in
  let later := run time (Wait <$> pause :: pauses) s in
  now s = now0 + gaps earlier
  ∧ calls s = []
  ∧ timers s = [{| handle := length earlier; due := now s + time; args := last |}]
  ∧ calls later
    = (if decide (time ≤ sum_list (pause :: pauses)) then [(now s + time, last)] else [])
  ∧ timers later
    = (if decide (time ≤ sum_list (pause :: pauses)) then [] else timers s).
Proof.
  intros Hgaps s later. subst later s.
  destruct (run_burst earlier (initial now0) Hgaps) as ((Hc & Ht) & Hnow & Hnext).
  { split; [done|]. constructor. }
  rewrite run_snoc_call.
  set (s0 := run time (burst earlier) (initial now0)) in *. simpl in Hnow, Hnext.
  rewrite (debounced_quiet last s0) by done.
  rewrite Hnext. cbn [now calls timers].
  split; [done|]. split; [done|]. split; [done|].
  destruct (run_waits_armed pauses pause last (length earlier) (now s0 + time) (now s0)
              (S (length earlier))) as [H1 H2]; [lia|].
  rewrite H1, H2. cbn [timers].
  split; destruct (decide (time ≤ _)), (decide (_ ≤ _)); try done; lia.
Qed.

End debounce_claims.

(** Three keystrokes 40 and 50 ms apart with a delay of 250 ms. *)
Lemma debounce_collapse_witness :
  let run := @Helpers.run string in
  let calls := @Helpers.calls string in
  let s := run 250 (Helpers.burst [("a", 40); ("ab", 50)] ++ [Helpers.Call "abc"])
               (Helpers.initial 1000) in
  calls s = []
  ∧ calls (run 250 [Helpers.Wait 249] s) = []
  ∧ calls (run 250 [Helpers.Wait 249; Helpers.Wait 1; Helpers.Wait 1000] s) = [(1340, "abc")].
Proof.
  cbv zeta.
  assert (Forall (λ p : string * nat, p.2 < 250) [("a", 40); ("ab", 50)]) as Hgaps
    by (repeat constructor; simpl; lia).
  destruct (debounce_collapse 250 1000 [("a", 40); ("ab", 50)] "abc" 249 [] Hgaps)
    as (_ & Hnone & _ & Hearly & _).
  destruct (debounce_collapse 250 1000 [("a", 40); ("ab", 50)] "abc" 249 [1; 1000] Hgaps)
    as (Hnow & _ & _ & Hlate & _).
  split; [exact Hnone|]. split; [exact Hearly|].
  etrans; [exact Hlate|]. rewrite Hnow. reflexivity.
Defined.

(** ** Searches and their outcomes *)

Section session.
Import Main iTunes.

(** Resolve a lookup in an altered list of requests. *)
Ltac lookup_alter H :=
  repeat (rewrite list_lookup_alter in H; case_decide); simplify_eq/=;
  repeat match goal with
         | Hx : ?l !! ?i = Some _ |- _ =>
             first [constr_eq Hx H; fail 1 | rewrite Hx in H]
         end;
  simplify_eq/=.

Lemma consistent_initial tr : consistent tr initial.
Proof. split; intros; try done. Qed.

(** On a consistent state the abort of line 104 has a closed form. *)
Lemma abort_request_closed tr s :
  consistent tr s →
  abort_request tr s
  = match request s with
    | Some id =>
        match phase <$> xhrs s !! id with
        | Some InFlight =>
            if abort_dispatches tr then
              {| xhrs := alter clear_handler id (alter (set_phase Aborted) id (xhrs s));
                 request := None; data := data s;
                 errors := errors s ++ [(id, None)] |}
            else set_xhrs (alter (set_phase Aborted) id) s
        | _ => s
        end
    | None => s
    end.
Proof.
  intros Hc. unfold abort_request, abort.
  destruct (request s) as [id|]; [|done].
  destruct (xhrs s !! id) as [x|] eqn:Hx; [|done]. simpl.
  destruct (phase x) eqn:Hp; try done.
  destruct (abort_dispatches tr); [|done].
  destruct (in_flight_current _ _ Hc id x Hx Hp) as (_ & Hh & _).
  unfold dispatch. simpl. rewrite list_lookup_alter_eq, Hx. simpl. rewrite Hh.
  reflexivity.
Qed.

Lemma abort_is_final_silent tr :
  abort_is_final tr = true → abort_dispatches tr = false → abort_stops_delivery tr = true.
Proof. unfold abort_is_final. intros H Hd. by rewrite Hd in H. Qed.

Lemma errors_of_snoc id' id r (l : list (nat * Response)) :
  filter (λ e, e.1 = id') (l ++ [(id, r)])
  = filter (λ e, e.1 = id') l ++ (if decide (id = id') then [(id, r)] else []).
Proof. by rewrite filter_app. Qed.

(** So has a report of the transport: only the request in flight reacts,
    and only to DONE. *)
Lemma readystatechange_closed tr id readyState status response s :
  abort_is_final tr = true → consistent tr s →
  readystatechange tr id readyState status response s
  = if bool_decide (phase_of s id = Some InFlight) && (readyState =? DONE) then
      if status =? 200 then
        match response with
        | Some results =>
            {| xhrs := alter clear_handler id (alter (set_phase Done) id (xhrs s));
               request := None;
               data := (formattedResults results).1;
               errors := errors s |}
        | None => set_xhrs (alter (set_phase Done) id) s
        end
      else
        {| xhrs := alter clear_handler id (alter (set_phase Done) id (xhrs s));
           request := None;
           data := data s;
           errors := errors s ++ [(id, response)] |}
    else s.
Proof.
  intros Hs Hc. unfold readystatechange, phase_of.
  destruct (xhrs s !! id) as [x|] eqn:Hx; simpl; [|done].
  unfold deliverable. destruct (phase x) eqn:Hp; simpl.
  - destruct (in_flight_current _ _ Hc id x Hx Hp) as (_ & Hh & _).
    rewrite ?andb_true_r. simpl.
    unfold dispatch, handler.
    destruct (readyState =? DONE) eqn:Hr; simpl.
    + rewrite list_lookup_alter_eq, Hx. simpl. rewrite Hh.
      destruct (status =? 200); [|done]. by destruct response.
    + rewrite Hx, Hh. done.
  - rewrite ?andb_false_r. simpl.
    destruct (abort_stops_delivery tr) eqn:Hstop; simpl; [done|].
    pose proof (aborted_settled _ _ Hc id x Hx Hp) as Ha.
    destruct (abort_dispatches tr) eqn:Hd.
    + destruct Ha as [Hh _]. unfold dispatch. by rewrite Hx, Hh.
    + destruct Ha as [Ha _]. congruence.
  - done.
Qed.

Lemma in_flight_is_request tr s id :
  consistent tr s → phase_of s id = Some InFlight → request s = Some id.
Proof.
  intros Hc. unfold phase_of. destruct (xhrs s !! id) as [x|] eqn:Hx; [|done].
  simpl. intros [= Hp]. by destruct (in_flight_current _ _ Hc id x Hx Hp).
Qed.

(** The abort of line 104 keeps the state consistent, leaves no request in
    flight and touches neither the results nor the number of requests. *)
Lemma abort_request_spec tr s :
  abort_is_final tr = true → consistent tr s →
  consistent tr (abort_request tr s)
  ∧ idle (abort_request tr s)
  ∧ data (abort_request tr s) = data s
  ∧ length (xhrs (abort_request tr s)) = length (xhrs s)
  ∧ (∀ id, phase_of (abort_request tr s) id
          = if bool_decide (phase_of s id = Some InFlight) then Some Aborted
            else phase_of s id).
Proof.
  intros Hs Hc. rewrite abort_request_closed by done.
  pose proof (in_flight_is_request tr s) as Hcur.
  pose proof Hc as [H1 H2 H3].
  assert (∀ id x, request s = Some id → xhrs s !! id = Some x → phase x ≠ InFlight →
          idle s ∧ ∀ id', phase_of s id'
                     = if bool_decide (phase_of s id' = Some InFlight) then Some Aborted
                       else phase_of s id') as Hidle.
  { intros id x Hreq Hx Hp.
    assert (idle s) as Hi.
    { intros id' x' Hx' Hp'. destruct (H1 id' x' Hx' Hp') as [? _]. congruence. }
    split; [done|]. intros id'. rewrite bool_decide_eq_false_2; [done|].
    unfold phase_of. destruct (xhrs s !! id') as [x'|] eqn:Hx'; [|done].
    simpl. intros [= Hp']. by apply (Hi id' x'). }
  destruct (request s) as [id|] eqn:Hreq.
  2:{ split; [done|]. split; [|split; [done|split; [done|]]].
      - intros id x Hx Hp. by destruct (H1 id x Hx Hp).
      - intros id. rewrite bool_decide_eq_false_2; [done|].
        intros Hp. by specialize (Hcur id Hc Hp). }
  destruct (xhrs s !! id) as [x|] eqn:Hx; simpl.
  2:{ assert (idle s) as Hi.
      { intros id' x' Hx' Hp'. destruct (H1 id' x' Hx' Hp') as [? _]. congruence. }
      split; [done|]. split; [done|]. split; [done|]. split; [done|].
      intros id'. rewrite bool_decide_eq_false_2; [done|].
      unfold phase_of. destruct (xhrs s !! id') as [x'|] eqn:Hx'; [|done].
      simpl. intros [= Hp']. by apply (Hi id' x'). }
  destruct (phase x) eqn:Hp.
  - assert (∀ id', phase <$> (if decide (id = id') then Some (set_phase Aborted x)
                              else xhrs s !! id')
                   = if bool_decide (phase_of s id' = Some InFlight) then Some Aborted
                     else phase_of s id') as Hphase.
    { intros id'. case_decide; simplify_eq/=.
      - unfold phase_of. rewrite Hx. simpl. rewrite Hp. by rewrite bool_decide_eq_true_2.
      - fold (phase_of s id'). rewrite bool_decide_eq_false_2; [done|].
        intros Hp'. specialize (Hcur id' Hc Hp'). congruence. }
    destruct (abort_dispatches tr) eqn:Hd.
    + split; [split; simpl|].
      * intros id' x' Hx' Hp'. lookup_alter Hx'.
        destruct (H1 id' x' Hx' Hp') as [? _]. congruence.
      * intros id' x' Hx' Hp'. rewrite Hd. unfold errors_of; simpl. rewrite errors_of_snoc.
        lookup_alter Hx'.
        -- destruct (H1 _ _ Hx Hp) as (_ & _ & He). unfold errors_of in He. by rewrite He.
        -- rewrite app_nil_r. by apply H2.
      * intros id'. rewrite !length_alter. intros Hid'.
        unfold errors_of; simpl. rewrite errors_of_snoc.
        apply lookup_lt_Some in Hx. rewrite decide_False, app_nil_r by lia. by apply H3.
      * split; [|split; [done|split; [simpl; by rewrite !length_alter|]]].
        -- intros id' x' Hx' Hp'. simpl in Hx'. lookup_alter Hx'.
           destruct (H1 id' x' Hx' Hp') as [? _]. congruence.
        -- intros id'. rewrite <- Hphase. unfold phase_of at 1. simpl.
           rewrite !list_lookup_alter. repeat case_decide; simplify_eq/=; by rewrite ?Hx.
    + split; [split; simpl|].
      * intros id' x' Hx' Hp'. lookup_alter Hx'.
        destruct (H1 id' x' Hx' Hp') as [? _]. congruence.
      * intros id' x' Hx' Hp'. rewrite Hd. change (errors_of id' _) with (errors_of id' s).
        lookup_alter Hx'.
        -- split; [by apply abort_is_final_silent|]. by destruct (H1 _ _ Hx Hp) as (_ & _ & He).
        -- by apply (H2 id' x').
      * intros id'. rewrite !length_alter. apply H3.
      * split; [|split; [done|split; [simpl; by rewrite !length_alter|]]].
        -- intros id' x' Hx' Hp'. simpl in Hx'. lookup_alter Hx'.
           destruct (H1 id' x' Hx' Hp') as [? _]. congruence.
        -- intros id'. rewrite <- Hphase. unfold phase_of at 1. simpl.
           rewrite !list_lookup_alter. repeat case_decide; simplify_eq/=; by rewrite ?Hx.
  - split; [done|]. destruct (Hidle id x eq_refl Hx) as [Hi Hph]; [congruence|].
    split; [done|]. split; [done|]. split; [done|]. done.
  - split; [done|]. destruct (Hidle id x eq_refl Hx) as [Hi Hph]; [congruence|].
    split; [done|]. split; [done|]. split; [done|]. done.
Qed.

Lemma HttpRequest_consistent tr t s :
  consistent tr s → idle s → consistent tr (HttpRequest t s).
Proof.
  intros [H1 H2 H3] Hi. split; simpl.
  - intros id x Hx Hp. apply lookup_app_Some in Hx as [Hx|[Hlen Hx]].
    + by destruct (Hi id x Hx).
    + apply list_lookup_singleton_Some in Hx as [Hid <-].
      assert (id = length (xhrs s)) as -> by lia.
      split; [done|]. split; [done|]. by apply H3.
  - intros id x Hx Hp. apply lookup_app_Some in Hx as [Hx|[Hlen Hx]].
    + by apply (H2 id x).
    + apply list_lookup_singleton_Some in Hx as [Hid <-]. done.
  - intros id. rewrite length_app. simpl. intros Hid. apply H3. lia.
Qed.

Lemma readystatechange_consistent tr id readyState status response s :
  abort_is_final tr = true → consistent tr s →
  consistent tr (readystatechange tr id readyState status response s).
Proof.
  intros Hs Hc. rewrite readystatechange_closed by done.
  case_bool_decide as Hp; simpl; [|done].
  destruct (readyState =? DONE); [|done].
  pose proof (in_flight_is_request tr s id Hc Hp) as Hreq.
  pose proof Hc as [H1 H2 H3].
  unfold phase_of in Hp. destruct (xhrs s !! id) as [x|] eqn:Hx; [|done].
  injection Hp as Hp.
  assert (∀ id' x', xhrs s !! id' = Some x' → phase x' = InFlight → id' = id) as Hone.
  { intros id' x' Hx' Hp'. destruct (H1 id' x' Hx' Hp') as [? _]. congruence. }
  destruct (status =? 200); [destruct response as [results|]|].
  - split; simpl.
    + intros id' x' Hx' Hp'. lookup_alter Hx'. by destruct (Hone id' x' Hx' Hp').
    + intros id' x' Hx' Hp'. change (errors_of id' _) with (errors_of id' s).
      lookup_alter Hx'. by apply (H2 id' x').
    + intros id'. rewrite !length_alter. apply H3.
  - split; simpl.
    + intros id' x' Hx' Hp'. lookup_alter Hx'. by destruct (Hone id' x' Hx' Hp').
    + intros id' x' Hx' Hp'. change (errors_of id' _) with (errors_of id' s).
      lookup_alter Hx'. by apply (H2 id' x').
    + intros id'. rewrite !length_alter. apply H3.
  - split; simpl.
    + intros id' x' Hx' Hp'. lookup_alter Hx'. by destruct (Hone id' x' Hx' Hp').
    + intros id' x' Hx' Hp'. unfold errors_of; simpl. rewrite errors_of_snoc.
      lookup_alter Hx'. rewrite app_nil_r. by apply (H2 id' x').
    + intros id'. rewrite !length_alter. intros Hid'.
      unfold errors_of; simpl. rewrite errors_of_snoc.
      apply lookup_lt_Some in Hx. rewrite decide_False, app_nil_r by lia. by apply H3.
Qed.

Lemma step_consistent tr e s :
  abort_is_final tr = true → consistent tr s → consistent tr (step tr e s).
Proof.
  intros Hs Hc. destruct e as [value|id readyState status response]; simpl.
  - unfold onChange. destruct (too_short value).
    + by destruct Hc.
    + destruct (abort_request_spec tr s Hs Hc) as (Hc' & Hi & _).
      unfold searchTrack. destruct (encodes tr value); [|done].
      by apply HttpRequest_consistent.
  - by apply readystatechange_consistent.
Qed.

(** Every state the page reaches is consistent. *)
Lemma run_consistent tr es : ∀ s,
  abort_is_final tr = true → consistent tr s → consistent tr (run tr es s).
Proof.
  induction es as [|e es IH]; intros s Hs Hc; [done|].
  apply IH; [done|]. by apply step_consistent.
Qed.

Lemma too_short_length value :
  too_short value = bool_decide (String.length value < MIN_TERM_LENGTH).
Proof.
  unfold too_short. destruct value as [|c value]; [done|]. simpl String.eqb.
  rewrite orb_false_l. apply eq_true_iff_eq. by rewrite Nat.ltb_lt, bool_decide_eq_true.
Qed.

Lemma phase_of_HttpRequest t s id :
  phase_of (HttpRequest t s) id
  = if decide (id = length (xhrs s)) then Some InFlight else phase_of s id.
Proof.
  unfold phase_of, HttpRequest; simpl. case_decide as Hid.
  - subst. by rewrite list_lookup_middle.
  - destruct (decide (id < length (xhrs s))).
    + by rewrite lookup_app_l.
    + rewrite !lookup_ge_None_2; [done|lia|]. rewrite length_app. simpl. lia.
Qed.

(** C1: at most one request is in flight at any instant, and it is the one
    [request] holds.  [searchTrack], called while a request is in flight,
    aborts that request first (no request is in flight when the new one is
    made).  For a term that [encodeURIComponent] accepts the new request is
    then the one, and the only one, in flight; for a term on which it
    throws, the request in flight has been aborted and none is made. *)
Theorem one_pending_request tr es value :
  abort_is_final tr = true →
  let s := run tr es initial in
  let s' := searchTrack tr value s in
  (∀ i j, phase_of s i = Some InFlight → phase_of s j = Some InFlight → i = j)
  ∧ (∀ i, phase_of s i = Some InFlight → request s = Some i)
  ∧ (∀ i, phase_of s i = Some InFlight → phase_of (abort_request tr s) i = Some Aborted)
  ∧ (∀ i, phase_of (abort_request tr s) i ≠ Some InFlight)
  ∧ s' = (if encodes tr value then HttpRequest value (abort_request tr s)
          else abort_request tr s)
  ∧ step tr (Change value) s = (if too_short value then empty s else s')
  ∧ (∀ i j, phase_of s' i = Some InFlight → phase_of s' j = Some InFlight → i = j)
  ∧ (∀ i, phase_of s i = Some InFlight → phase_of s' i = Some Aborted)
  ∧ (encodes tr value = true →
     request s' = Some (length (xhrs s))
     ∧ xhrs s' !! length (xhrs s)
       = Some {| term := value; phase := InFlight; onreadystatechange := true |}
     ∧ ∀ i, phase_of s' i = Some InFlight ↔ i = length (xhrs s))
  ∧ (encodes tr value = false →
     length (xhrs s') = length (xhrs s) ∧ ∀ i, phase_of s' i ≠ Some InFlight).
Proof.
  intros Hs s s'.
  assert (consistent tr s) as Hc by (apply run_consistent; [done|apply consistent_initial]).
  destruct (abort_request_spec tr s Hs Hc) as (Hc' & Hi & _ & Hlen & Hph).
  assert (s' = (if encodes tr value then HttpRequest value (abort_request tr s)
                else abort_request tr s)) as Hs' by done.
  assert (∀ i, phase_of (abort_request tr s) i ≠ Some InFlight) as Hnone.
  { intros i. unfold phase_of. destruct (xhrs (abort_request tr s) !! i) as [x|] eqn:Hx; [|done].
    simpl. intros [= Hp]. by apply (Hi i x). }
  assert (∀ i, phase_of s i = Some InFlight → i < length (xhrs s)) as Hlt.
  { intros i. unfold phase_of. destruct (xhrs s !! i) eqn:Hx; [|done].
    intros _. by apply lookup_lt_Some in Hx. }
  assert (∀ i, phase_of (HttpRequest value (abort_request tr s)) i = Some InFlight
               ↔ i = length (xhrs s)) as Honly.
  { intros i. rewrite phase_of_HttpRequest, Hlen. case_decide; [done|].
    split; [|done]. intros Hp. by destruct (Hnone i). }
  split; [|split; [|split; [|split; [|split; [|split; [|split; [|split; [|split]]]]]]]].
  - intros i j Hi' Hj.
    pose proof (in_flight_is_request tr s i Hc Hi').
    pose proof (in_flight_is_request tr s j Hc Hj). congruence.
  - intros i. by apply (in_flight_is_request tr).
  - intros i Hi'. by rewrite Hph, bool_decide_eq_true_2.
  - done.
  - done.
  - done.
  - rewrite Hs'. destruct (encodes tr value).
    + intros i j Hi'%Honly Hj%Honly. congruence.
    + intros i j Hi'. by destruct (Hnone i).
  - intros i Hi'. rewrite Hs'. destruct (encodes tr value).
    + rewrite phase_of_HttpRequest, Hlen.
      rewrite decide_False by (specialize (Hlt i Hi'); lia).
      by rewrite Hph, bool_decide_eq_true_2.
    + by rewrite Hph, bool_decide_eq_true_2.
  - intros Henc. rewrite Hs', Henc. split; [|split; [|done]].
    + simpl. by rewrite Hlen.
    + simpl. rewrite <- Hlen. by rewrite list_lookup_middle.
  - intros Henc. rewrite Hs', Henc. by split.
Qed.

(** The theorem at the second of two searches on [XMLHttpRequest], and at a
    second search whose term holds a lone surrogate. *)
Lemma one_pending_request_witness :
  let s := run XMLHttpRequest [Change "abc"] initial in
  let s' := searchTrack XMLHttpRequest "abcd" s in
  let t := run (with_lone_surrogate "ab?") [Change "abc"] initial in
  let t' := searchTrack (with_lone_surrogate "ab?") "ab?" t in
  phase_of s 0 = Some InFlight
  ∧ phase_of s' 0 = Some Aborted
  ∧ request s' = Some 1
  ∧ (∀ i, phase_of s' i = Some InFlight ↔ i = 1)
  ∧ phase_of t' 0 = Some Aborted
  ∧ (∀ i, phase_of t' i ≠ Some InFlight).
Proof.
  cbv zeta.
  destruct (one_pending_request XMLHttpRequest [Change "abc"] "abcd" eq_refl)
    as (_ & _ & _ & _ & _ & _ & _ & Hprior & Hnew & _).
  destruct (Hnew eq_refl) as (Hreq & _ & Honly).
  destruct (one_pending_request (with_lone_surrogate "ab?") [Change "abc"] "ab?" eq_refl)
    as (_ & _ & _ & _ & _ & _ & _ & Hprior' & _ & Hthrown).
  destruct (Hthrown eq_refl) as [_ Hnone].
  split; [reflexivity|]. split; [by apply Hprior|]. split; [exact Hreq|].
  split; [exact Honly|]. split; [by apply Hprior'|exact Hnone].
Defined.

(** C2: the displayed results change in two ways only.  A term that is too
    short empties them; the outcome of the request in flight (the one
    [request] holds), with [readyState] DONE, [status] 200 and a body that
    has results, replaces them.  An error status, and anything reported on a
    request that is not the one in flight, leave them as they are. *)
Theorem results_change tr es e :
  abort_is_final tr = true →
  let s := run tr es initial in
  let s' := step tr e s in
  data s'
  = match e with
    | Change value => if too_short value then [] else data s
    | ReadyStateChange id readyState status response =>
        match response with
        | Some results =>
            if bool_decide (phase_of s id = Some InFlight)
               && (readyState =? DONE) && (status =? 200)
            then (formattedResults results).1
            else data s
        | None => data s
        end
    end
  ∧ (∀ id readyState status response,
       e = ReadyStateChange id readyState status response →
       status ≠ 200 ∨ request s ≠ Some id ∨ phase_of s id ≠ Some InFlight →
       data s' = data s).
Proof.
  intros Hs s s'.
  assert (consistent tr s) as Hc by (apply run_consistent; [done|apply consistent_initial]).
  assert (∀ id readyState status response,
    data (readystatechange tr id readyState status response s)
    = match response with
      | Some results =>
          if bool_decide (phase_of s id = Some InFlight)
             && (readyState =? DONE) && (status =? 200)
          then (formattedResults results).1
          else data s
      | None => data s
      end) as Hrsc.
  { intros id readyState status response. rewrite readystatechange_closed by done.
    destruct (bool_decide _ && _); simpl; [|by destruct response].
    destruct (status =? 200); by destruct response. }
  split.
  - subst s'. destruct e as [value|id readyState status response]; simpl; [|apply Hrsc].
    unfold onChange. destruct (too_short value); [done|].
    assert (data (searchTrack tr value s) = data (abort_request tr s)) as ->
      by (unfold searchTrack; by destruct (encodes tr value)).
    by destruct (abort_request_spec tr s Hs Hc) as (_ & _ & -> & _).
  - intros id readyState status response -> Hstale. subst s'. simpl. rewrite Hrsc.
    destruct response as [results|]; [|done].
    destruct Hstale as [Hst|[Hreq|Hp]].
    + apply Nat.eqb_neq in Hst. by rewrite Hst, andb_false_r.
    + rewrite bool_decide_eq_false_2; [done|]. intros Hp. apply Hreq.
      by apply (in_flight_is_request tr).
    + by rewrite bool_decide_eq_false_2.
Qed.

(** The theorem at a success, an error and an outcome for an aborted
    request. *)
Lemma results_change_witness :
  let track := {| artistName := "A"; trackName := "T1" |} in
  let s := run XMLHttpRequest [Change "abc"; Change "abcd"] initial in
  data (step XMLHttpRequest (ReadyStateChange 1 DONE 200 (Some [track])) s) = ["A - T1"]
  ∧ data (step XMLHttpRequest (ReadyStateChange 1 DONE 500 (Some [track])) s) = data s
  ∧ data (step XMLHttpRequest (ReadyStateChange 0 DONE 200 (Some [track])) s) = data s.
Proof.
  cbv zeta. split; [|split].
  - destruct (results_change XMLHttpRequest [Change "abc"; Change "abcd"]
                (ReadyStateChange 1 DONE 200 (Some [{| artistName := "A"; trackName := "T1" |}]))
                eq_refl) as [Hdata _].
    exact Hdata.
  - destruct (results_change XMLHttpRequest [Change "abc"; Change "abcd"]
                (ReadyStateChange 1 DONE 500 (Some [{| artistName := "A"; trackName := "T1" |}]))
                eq_refl) as [_ Hsame].
    apply (Hsame 1 DONE 500 _ eq_refl). left. lia.
  - destruct (results_change XMLHttpRequest [Change "abc"; Change "abcd"]
                (ReadyStateChange 0 DONE 200 (Some [{| artistName := "A"; trackName := "T1" |}]))
                eq_refl) as [_ Hsame].
    apply (Hsame 0 DONE 200 _ eq_refl). right. left. vm_compute. discriminate.
Defined.

(** C3, as the code has it: whatever the transport reports on a request
    that was aborted before its outcome came is dropped, the page's state
    stays as it is.  The abort itself is reported where the transport
    dispatches DONE with status 0 from [abort()], as [XMLHttpRequest] does:
    the handler passes it to the error callback, once for each aborted
    request; where [abort()] dispatches nothing, nothing is logged. *)
Theorem superseded_request_outcome tr es id :
  abort_is_final tr = true →
  phase_of (run tr es initial) id = Some Aborted →
  errors_of id (run tr es initial)
  = (if abort_dispatches tr then [(id, None)] else [])
  ∧ ∀ readyState status response,
      step tr (ReadyStateChange id readyState status response) (run tr es initial)
      = run tr es initial.
Proof.
  intros Hs Hp.
  assert (consistent tr (run tr es initial)) as Hc
    by (apply run_consistent; [done|apply consistent_initial]).
  split.
  - unfold phase_of in Hp.
    destruct (xhrs (run tr es initial) !! id) as [x|] eqn:Hx; [|done].
    injection Hp as Hp. pose proof (aborted_settled _ _ Hc id x Hx Hp) as Ha.
    destruct (abort_dispatches tr); by destruct Ha.
  - intros readyState status response. simpl.
    rewrite readystatechange_closed by done.
    rewrite bool_decide_eq_false_2; [done|]. by rewrite Hp.
Qed.

(** The theorem at the first of two searches, on both kinds of transport. *)
Lemma superseded_request_outcome_witness :
  let s := run XMLHttpRequest [Change "abc"; Change "abcd"] initial in
  let s' := run silent_transport [Change "abc"; Change "abcd"] initial in
  errors_of 0 s = [(0, None)]
  ∧ step XMLHttpRequest (ReadyStateChange 0 DONE 500 None) s = s
  ∧ errors_of 0 s' = [].
Proof.
  cbv zeta.
  destruct (superseded_request_outcome XMLHttpRequest [Change "abc"; Change "abcd"] 0
              eq_refl eq_refl) as [Hlog Hdrop].
  destruct (superseded_request_outcome silent_transport [Change "abc"; Change "abcd"] 0
              eq_refl eq_refl) as [Hsilent _].
  split; [exact Hlog|]. split; [apply Hdrop|exact Hsilent].
Defined.

(** C3 fails as stated: with [XMLHttpRequest], a second search made while the
    first is in flight aborts the first, and the error callback logs it. *)
Lemma superseded_request_logs_error :
  let s := run XMLHttpRequest [Change "abc"; Change "abcd"] initial in
  phase_of s 0 = Some Aborted ∧ phase_of s 1 = Some InFlight
  ∧ errors s = [(0, None)].
Proof. repeat split; reflexivity. Qed.

(** C4, as the code has it: with a term shorter than [MIN_TERM_LENGTH] the
    handler empties the displayed results and does nothing else: no request
    is made, and a request in flight stays in flight and stays the one
    [request] holds. *)
Theorem short_term_empties_results tr value s :
  String.length value < MIN_TERM_LENGTH →
  step tr (Change value) s
  = {| xhrs := xhrs s; request := request s; data := []; errors := errors s |}.
Proof.
  intros Hlen. simpl. unfold onChange. rewrite too_short_length.
  by rewrite bool_decide_eq_true_2.
Qed.

(** The theorem at the term ab, with results on display and a request in
    flight. *)
Lemma short_term_empties_results_witness :
  let s := run XMLHttpRequest [Change "abc"; ReadyStateChange 0 DONE 200
             (Some [{| artistName := "A"; trackName := "T1" |}]); Change "abcd"] initial in
  data s = ["A - T1"]
  ∧ step XMLHttpRequest (Change "ab") s
    = {| xhrs := xhrs s; request := request s; data := []; errors := errors s |}.
Proof.
  split; [reflexivity|].
  apply (short_term_empties_results XMLHttpRequest "ab"). vm_compute. lia.
Defined.

(** C4 fails as stated: the request made for "abc" is still in flight after
    "ab", and its outcome then fills the emptied results. *)
Lemma short_term_keeps_pending_request :
  let track := {| artistName := "A"; trackName := "T1" |} in
  let s := run XMLHttpRequest [Change "abc"; Change "ab"] initial in
  data s = [] ∧ phase_of s 0 = Some InFlight ∧ request s = Some 0
  ∧ data (step XMLHttpRequest (ReadyStateChange 0 DONE 200 (Some [track])) s) = ["A - T1"].
Proof. repeat split; reflexivity. Qed.

(** Without either guarantee from the transport the script has no guard of
    its own. *)
Lemma late_outcome_is_forwarded :
  let track := {| artistName := "A"; trackName := "T1" |} in
  let s := run late_transport
             [Change "abc"; Change "abcd"; ReadyStateChange 0 DONE 200 (Some [track])]
             initial in
  phase_of s 0 = Some Aborted ∧ data s = ["A - T1"] ∧ request s = None
  ∧ phase_of (step late_transport (Change "abcde") s) 1 = Some InFlight
  ∧ phase_of (step late_transport (Change "abcde") s) 2 = Some InFlight.
Proof. repeat split; reflexivity. Qed.

(** A term with a lone surrogate: the request in flight is aborted, which
    the error callback logs, and [encodeURIComponent] throws before a request
    is made. *)
Lemma lone_surrogate_makes_no_request :
  let s := run (with_lone_surrogate "ab?") [Change "abc"; Change "ab?"] initial in
  term <$> xhrs s = ["abc"] ∧ phase_of s 0 = Some Aborted
  ∧ request s = None ∧ errors s = [(0, None)].
Proof. repeat split; reflexivity. Qed.

End session.

(** ** Dates *)

Section datetime.
Import DateTime.

Lemma digits_no_separator c (d : Decimal.uint) :
  separator c → occurs c (NilEmpty.string_of_uint d) = false.
Proof.
  intros Hc. induction d; simpl; [done|..]; rewrite IHd, orb_false_r;
    destruct Hc as [->|[->| ->]]; reflexivity.
Qed.

Lemma toString_no_separator c n : separator c → occurs c (toString n) = false.
Proof. apply digits_no_separator. Qed.

Lemma toString_inj n m : toString n = toString m → n = m.
Proof.
  unfold toString. intros H. apply Unsigned.to_uint_inj.
  pose proof (NilEmpty.usu (Nat.to_uint n)) as Hn.
  pose proof (NilEmpty.usu (Nat.to_uint m)) as Hm.
  rewrite H in Hn. congruence.
Qed.

Lemma occurs_app c a b : occurs c (a +:+ b) = occurs c a || occurs c b.
Proof. induction a as [|x a IH]; simpl; [done|]. by rewrite IH, orb_assoc. Qed.

Lemma pad_no_separator c n : separator c → occurs c (pad n) = false.
Proof.
  intros Hc. unfold pad. destruct (n <? 10).
  - rewrite occurs_app, toString_no_separator by done.
    destruct Hc as [->|[->| ->]]; reflexivity.
  - by apply toString_no_separator.
Qed.

(** Two strings cut at the first occurrence of a character agree part by part *)
Lemma split_at_separator c a b r r' :
  occurs c a = false → occurs c b = false →
  a +:+ String c r = b +:+ String c r' → a = b ∧ r = r'.
Proof.
  revert b. induction a as [|x a IH]; intros [|y b]; simpl; intros Ha Hb Heq.
  - by injection Heq.
  - injection Heq as -> _. by rewrite Ascii.eqb_refl in Hb.
  - injection Heq as -> _. by rewrite Ascii.eqb_refl in Ha.
  - injection Heq as -> Heq. apply orb_false_elim in Ha as [_ Ha].
    apply orb_false_elim in Hb as [_ Hb].
    destruct (IH b Ha Hb Heq) as [-> ->]. done.
Qed.


Lemma small_numbers :
  Forall (λ a, String.length (toString a) = (if a <? 10 then 1 else 2)
               ∧ Forall (λ b, pad a = pad b → a = b) (seq 0 100)) (seq 0 100).
Proof. apply (bool_decide_unpack _). vm_compute. exact I. Qed.

Lemma toString_length n :
  n < 100 → String.length (toString n) = if n <? 10 then 1 else 2.
Proof.
  intros Hn. pose proof small_numbers as H. rewrite Forall_forall in H.
  apply (H n). apply elem_of_seq. lia.
Qed.

Lemma pad_inj a b : a < 100 → b < 100 → pad a = pad b → a = b.
Proof.
  intros Ha Hb. pose proof small_numbers as H. rewrite Forall_forall in H.
  destruct (H a) as [_ H']; [apply elem_of_seq; lia|].
  rewrite Forall_forall in H'. apply H'. apply elem_of_seq. lia.
Qed.

Lemma length_append a b :
  String.length (a +:+ b) = String.length a + String.length b.
Proof. induction a as [|x a IH]; simpl; [done|]. by rewrite IH. Qed.

Lemma pad_length n : n < 100 → String.length (pad n) = 2.
Proof.
  intros Hn. unfold pad. destruct (n <? 10) eqn:Hlt.
  - change (String.length ("0" +:+ toString n)) with (S (String.length (toString n))).
    by rewrite toString_length, Hlt.
  - by rewrite toString_length, Hlt.
Qed.

(** X1: the text of a date has the digits of the year, two characters for
    the month and two for the minutes, but only as many as the number has
    digits for the day and for the hours: a day or an hour below 10 is not
    padded. *)
Theorem formatDateTime_length (date : Date) :
  in_range date = true →
  String.length (formatDateTime date)
  = String.length (toString (getFullYear date)) + 8
    + (if getDate date <? 10 then 1 else 2) + (if getHours date <? 10 then 1 else 2).
Proof.
  unfold in_range. rewrite !andb_true_iff, !Nat.ltb_lt, !Nat.leb_le.
  intros ((((Hm & Hd1) & Hd2) & Hh) & Hmin). unfold formatDateTime.
  rewrite !length_append. simpl String.length.
  rewrite !pad_length by lia.
  rewrite (toString_length (getDate date)), (toString_length (getHours date)) by lia.
  lia.
Qed.

Lemma formatDateTime_length_witness :
  String.length (formatDateTime {| getFullYear := 2020; getMonth := 2; getDate := 5;
                                   getHours := 9; getMinutes := 7 |}) = 14.
Proof.
  exact (formatDateTime_length {| getFullYear := 2020; getMonth := 2; getDate := 5;
                                  getHours := 9; getMinutes := 7 |} eq_refl).
Defined.

(** X2: dates that differ in the year, the month, the day, the hour or the
    minute have different texts. *)
Theorem formatDateTime_inj (d1 d2 : Date) :
  in_range d1 = true → in_range d2 = true →
  formatDateTime d1 = formatDateTime d2 → d1 = d2.
Proof.
  unfold in_range. rewrite !andb_true_iff, !Nat.ltb_lt, !Nat.leb_le.
  intros ((((Hm1 & _) & _) & _) & Hmin1) ((((Hm2 & _) & _) & _) & Hmin2).
  destruct d1 as [y1 m1 day1 h1 min1], d2 as [y2 m2 day2 h2 min2].
  unfold formatDateTime. simpl in *. intros Heq.
  assert (separator "-") as Hdash by (by left).
  assert (separator " ") as Hspace by (right; by left).
  assert (separator ":") as Hcolon by (right; by right).
  apply split_at_separator in Heq as [Hy Heq]; [|by apply toString_no_separator..].
  apply split_at_separator in Heq as [Hm Heq]; [|by apply pad_no_separator..].
  apply split_at_separator in Heq as [Hd Heq]; [|by apply toString_no_separator..].
  apply split_at_separator in Heq as [Hh Hmin]; [|by apply toString_no_separator..].
  apply toString_inj in Hy, Hd, Hh. apply pad_inj in Hm, Hmin; [|lia..].
  f_equal; lia.
Qed.

Lemma formatDateTime_inj_witness :
  let date := {| getFullYear := 2020; getMonth := 2; getDate := 5;
                 getHours := 9; getMinutes := 7 |} in
  formatDateTime date = "2020-03-5 9:07" ∧ date = date.
Proof.
  split; [reflexivity|].
  exact (formatDateTime_inj
           {| getFullYear := 2020; getMonth := 2; getDate := 5; getHours := 9; getMinutes := 7 |}
           {| getFullYear := 2020; getMonth := 2; getDate := 5; getHours := 9; getMinutes := 7 |}
           eq_refl eq_refl eq_refl).
Defined.

End datetime.

(** ** Debounce, any sequence of calls *)

Section debounce_more.
Import Helpers Timeline.
Context {Args : Type}.
Variable time : nat.
Implicit Types (s : State Args) (a : Args).

Lemma clearTimeout_nil h : clearTimeout h (@nil (Timer Args)) = [].
Proof. by destruct h. Qed.

Lemma tidy_step now0 cs e s :
  tidy time now0 cs s →
  tidy time now0 (cs ++ match e with Call a => [a] | Wait _ => [] end) (step time e s).
Proof.
  intros (Ht & Hlen & Hc & Hd & Hnow). destruct s as [T to ts n c]. simpl in *.
  destruct e as [a|d]; simpl.
  - assert (clearTimeout to ts = []) as Hclear.
    { destruct Ht as [->|(t & -> & -> & _)]; [apply clearTimeout_nil|].
      simpl. rewrite filter_cons_False; [done|]. by intros H. }
    unfold debounced, tidy. cbn [now timeout timers next_handle calls]. rewrite Hclear.
    simpl. split; [|split; [|split; [|split]]].
    + right. eexists. split; [done|]. split; [done|]. simpl.
      apply elem_of_app. right. apply list_elem_of_here.
    + rewrite length_app. simpl.
      destruct Ht as [->|(t & -> & _)]; simpl in *; lia.
    + eapply Forall_impl; [exact Hc|]. intros [t' a'] [? ?]. split; [|done].
      apply elem_of_app. by left.
    + apply Forall_singleton. simpl. lia.
    + done.
  - rewrite app_nil_r. destruct Ht as [->|(t & -> & -> & Ha)].
    + rewrite elapse_idle by done. unfold tidy; simpl.
      split; [by left|]. split; [done|]. split; [|split; [done|lia]].
      eapply Forall_impl; [exact Hc|]. intros [t' a'] [? ?]. simpl in *. split; [done|lia].
    + destruct t as [h D a]. simpl in *.
      apply Forall_cons in Hd as [Hd _]. simpl in Hd.
      destruct (decide (D ≤ T + d)).
      * rewrite elapse_due by done. unfold tidy; simpl.
        split; [by left|]. split; [rewrite length_app; simpl; lia|].
        split; [|split; [done|lia]].
        apply Forall_app. split.
        -- eapply Forall_impl; [exact Hc|]. intros [t' a'] [? ?]. simpl in *. split; [done|lia].
        -- apply Forall_singleton. simpl. split; [done|lia].
      * rewrite elapse_not_due by lia. unfold tidy; simpl.
        split; [right; by eexists|]. split; [done|]. split; [|split; [|lia]].
        -- eapply Forall_impl; [exact Hc|]. intros [t' a'] [? ?]. simpl in *. split; [done|lia].
        -- by apply Forall_singleton.
Qed.

Lemma tidy_run now0 (es : list (Event Args)) : tidy time now0 (called es) (run time es (initial now0)).
Proof.
  induction es as [|e es IH] using rev_ind.
  - unfold tidy; simpl. split; [by left|]. split; [done|]. split; [done|]. split; done.
  - unfold run, called in *. rewrite foldl_snoc, bind_app. simpl. rewrite app_nil_r.
    by apply tidy_step.
Qed.

(** X3: whatever the calls and the pauses, at most one timer is pending, and
    it is the one [timeout] holds; [callback] has run, or is still to run,
    at most once per call, only with arguments of a call, and never sooner
    than [time] after the start. *)
Theorem debounce_never_leaks (now0 : nat) (es : list (Event Args)) :
  let s := run time es (initial now0) in
  length (timers s) ≤ 1
  ∧ length (calls s) + length (timers s) ≤ length (called es)
  ∧ Forall (λ t, timeout s = Some (handle t) ∧ args t ∈ called es) (timers s)
  ∧ Forall (λ c, c.2 ∈ called es ∧ now0 + time ≤ c.1 ≤ now s) (calls s).
Proof.
  intros s. destruct (tidy_run now0 es) as (Ht & Hlen & Hc & _).
  fold s in Ht, Hlen, Hc. split; [|split; [done|split; [|done]]].
  - destruct Ht as [->|(t & -> & _)]; simpl; lia.
  - destruct Ht as [->|(t & -> & ? & ?)]; [done|]. by apply Forall_singleton.
Qed.

Lemma run_spaced l : ∀ s,
  timers s = [] → Forall (λ p, time ≤ p.2) l →
  calls (run time (burst l) s) = calls s ++ runs_of time (now s) l
  ∧ timers (run time (burst l) s) = [].
Proof.
  induction l as [|[a gap] l IH]; intros s Ht Hgaps.
  - simpl. by rewrite app_nil_r.
  - apply Forall_cons in Hgaps as [Hgap Hgaps]. simpl in Hgap.
    change (burst ((a, gap) :: l)) with (Call a :: Wait gap :: burst l).
    rewrite !run_cons. cbn [step].
    destruct s as [T to ts n c]. simpl in Ht. subst ts.
    unfold debounced. cbn [now timeout timers next_handle calls].
    rewrite clearTimeout_nil. simpl app.
    rewrite elapse_due by lia.
    match goal with |- context [run time (burst l) ?s0] =>
      destruct (IH s0 eq_refl Hgaps) as [IH1 IH2] end.
    rewrite IH1, IH2. simpl. by rewrite <- app_assoc.
Qed.

(** X4: calls that follow each other by [time] or more are all let through:
    [callback] runs once per call, [time] after it, in the order of the
    calls, and no timer is left. *)
Theorem debounce_spaced_calls (now0 : nat) (l : list (Args * nat)) :
  Forall (λ p, time ≤ p.2) l →
  let s := run time (burst l) (initial now0) in
  calls s = runs_of time now0 l ∧ timers s = [] ∧ length (calls s) = length l.
Proof.
  intros Hgaps s. destruct (run_spaced l (initial now0) eq_refl Hgaps) as [H1 H2].
  fold s in H1, H2. simpl in H1. split; [done|]. split; [done|]. rewrite H1.
  clear. generalize now0. induction l as [|[a g] l IH]; intros t; simpl; [done|].
  by rewrite IH.
Qed.

End debounce_more.

Lemma debounce_spaced_calls_witness :
  Helpers.calls (Helpers.run 250 (Helpers.burst [("abc", 300); ("abcd", 250)])
                   (Helpers.initial 1000))
  = [(1250, "abc"); (1550, "abcd")].
Proof.
  assert (Forall (λ p : string * nat, 250 ≤ p.2) [("abc", 300); ("abcd", 250)]) as Hgaps
    by (repeat constructor; simpl; lia).
  destruct (debounce_spaced_calls 250 1000 [("abc", 300); ("abcd", 250)] Hgaps) as [H _].
  exact H.
Defined.

(** ** The history list, further *)

Section history_more.
Import searchHistory.

Lemma remove_loop_frame t n : ∀ k arr,
  filter (λ item, title item ≠ t) (forEach_from (remove_callback t) n k arr)
  = filter (λ item, title item ≠ t) arr
  ∧ forEach_from (remove_callback t) n k arr `sublist_of` arr.
Proof.
  induction n as [|n IH]; intros k arr; [done|]. simpl.
  destruct (arr !! k) as [item|] eqn:Hk; [|apply IH].
  assert (remove_callback t item k arr
          = if String.eqb (title item) t then delete k arr else arr) as ->
    by (unfold remove_callback; by rewrite splice_one).
  destruct (String.eqb (title item) t) eqn:Heq; [|apply IH].
  apply String.eqb_eq in Heq.
  destruct (IH (S k) (delete k arr)) as [IH1 IH2]. split.
  - rewrite IH1. rewrite <- (take_drop_middle arr k item Hk) at 2.
    rewrite delete_take_drop, !filter_app. f_equal.
    by rewrite filter_cons_False by (intros H; by apply H).
  - etrans; [exact IH2|]. apply sublist_delete.
Qed.

(** X6: on every list, [remove] keeps the entries with another title, all of
    them and in their order, and brings no entry in. *)
Theorem history_remove_keeps_others (t : string) (s : State) :
  filter (λ item, title item ≠ t) (data (remove t s))
  = filter (λ item, title item ≠ t) (data s)
  ∧ data (remove t s) `sublist_of` data s.
Proof. apply remove_loop_frame. Qed.

(** X7: removing a title just added, which the list did not hold, gives the
    entries back as they were. *)
Theorem history_add_remove (now : Z) (t : string) (s : State) :
  reachable s → t ∉ titles s →
  data (remove t (add now t s)) = data s.
Proof.
  intros Hr Hout.
  rewrite remove_data_unique
    by (apply reachable_unique; apply (reachable_step (Add now t) s Hr)).
  rewrite add_data, bool_decide_eq_false_2 by done.
  rewrite filter_app, filter_cons_False, filter_nil by (simpl; intros H; by apply H).
  rewrite app_nil_r. apply filter_no_match. apply Forall_forall.
  intros item Hitem Ht. apply Hout. rewrite <- Ht. by apply list_elem_of_fmap_2.
Qed.

Lemma history_add_remove_witness :
  let s := run [Add 1 "X"; Add 2 "Y"] (initial "") in
  data (remove "Z" (add 3 "Z" s)) = data s.
Proof.
  apply history_add_remove.
  - by exists "", [Add 1 "X"; Add 2 "Y"].
  - vm_compute. intros H. repeat (apply elem_of_cons in H as [H|H]; [discriminate|]).
    by apply elem_of_nil in H.
Defined.

(** X5: however the list was reached by [add] and [remove], no two of
    its entries have the same title. *)
Theorem history_titles_unique (display0 : string) (ops : list Op) :
  NoDup (titles (run ops (initial display0))).
Proof. apply reachable_unique. by exists display0, ops. Qed.

End history_more.

(** ** The session on any transport *)

Section session_more.
Import Main iTunes Searches.

(** Whatever the transport, [request.abort()] and a report of the transport
    are made of a change of phase and a dispatch. *)
Lemma abort_request_preserves (P : State → Prop) tr :
  (∀ s p id, P s → P (set_xhrs (alter (set_phase p) id) s)) →
  (∀ s id, P s → P (dispatch id DONE 0 None s)) →
  ∀ s, P s → P (abort_request tr s).
Proof.
  intros Hphase Hdispatch s Hs. unfold abort_request, abort.
  destruct (request s) as [id|]; [|done].
  destruct (xhrs s !! id) as [x|]; [|done].
  destruct (phase x); try done.
  destruct (abort_dispatches tr); [apply Hdispatch|]; by apply Hphase.
Qed.

Lemma readystatechange_preserves (P : State → Prop) tr id readyState status response :
  (∀ s p id, P s → P (set_xhrs (alter (set_phase p) id) s)) →
  (∀ s, P s → P (dispatch id readyState status response s)) →
  ∀ s, P s → P (readystatechange tr id readyState status response s).
Proof.
  intros Hphase Hdispatch s Hs. unfold readystatechange.
  destruct (xhrs s !! id) as [x|]; [|done].
  destruct (deliverable tr x); [|done].
  apply Hdispatch. destruct (_ && _); [by apply Hphase|done].
Qed.

Lemma dispatch_cases id readyState status response s :
  dispatch id readyState status response s = s
  ∨ (∃ x results, xhrs s !! id = Some x ∧ onreadystatechange x = true
       ∧ readyState = DONE ∧ status = 200 ∧ response = Some results
       ∧ dispatch id readyState status response s
         = set_xhrs (alter clear_handler id) (complete (set (formattedResults results).1 s)))
  ∨ (∃ x, xhrs s !! id = Some x ∧ onreadystatechange x = true
       ∧ readyState = DONE ∧ status ≠ 200
       ∧ dispatch id readyState status response s
         = set_xhrs (alter clear_handler id) (complete (error id response s))).
Proof.
  unfold dispatch. destruct (xhrs s !! id) as [x|] eqn:Hx; [|by left].
  destruct (onreadystatechange x) eqn:Hh; [|by left].
  unfold handler. destruct (readyState =? DONE) eqn:Hr; [|by left].
  apply Nat.eqb_eq in Hr. destruct (status =? 200) eqn:Hst.
  - apply Nat.eqb_eq in Hst. destruct response as [results|]; [|by left].
    right. left. by exists x, results.
  - apply Nat.eqb_neq in Hst. right. right. by exists x.
Qed.

Lemma terms_alter (f : Xhr → Xhr) id (l : list Xhr) :
  (∀ x, term (f x) = term x) → term <$> alter f id l = term <$> l.
Proof.
  intros Hf. apply list_eq. intros j. rewrite !list_lookup_fmap, list_lookup_alter.
  case_decide; [subst|done]. destruct (l !! j); simpl; [|done]. by rewrite Hf.
Qed.

Lemma terms_step tr e s :
  term <$> xhrs (step tr e s)
  = (term <$> xhrs s) ++ searched tr [e].
Proof.
  assert (∀ s p id l, term <$> xhrs s = l →
            term <$> xhrs (set_xhrs (alter (set_phase p) id) s) = l) as Hphase.
  { intros s0 p id l <-. by apply terms_alter. }
  assert (∀ l s id readyState status response, term <$> xhrs s = l →
            term <$> xhrs (dispatch id readyState status response s) = l) as Hdispatch.
  { intros l s0 id readyState status response <-.
    destruct (dispatch_cases id readyState status response s0)
      as [->|[(x & results & _ & _ & _ & _ & _ & ->)|(x & _ & _ & _ & _ & ->)]];
      [done|by apply terms_alter..]. }
  destruct e as [value|id readyState status response]; simpl.
  - assert (term <$> xhrs (abort_request tr s) = term <$> xhrs s) as Habort.
    { apply (abort_request_preserves (λ s', term <$> xhrs s' = term <$> xhrs s) tr); [..|done].
      - intros s0 p id. apply Hphase.
      - intros s0 id. apply Hdispatch. }
    unfold onChange. destruct (too_short value); [by rewrite app_nil_r|].
    unfold searchTrack. destruct (encodes tr value).
    + unfold HttpRequest. simpl. rewrite fmap_app. by f_equal.
    + by rewrite app_nil_r.
  - rewrite app_nil_r.
    apply (readystatechange_preserves (λ s', term <$> xhrs s' = term <$> xhrs s) tr); [..|done].
    + intros s0 p id'. apply Hphase.
    + intros s0. apply Hdispatch.
Qed.

(** X8: whatever the transport does, the requests made are those for the
    values that are long enough and that [encodeURIComponent] accepts, one
    each and in the order of the changes. *)
Theorem requests_made (tr : Transport) (es : list Event) :
  term <$> xhrs (run tr es initial) = searched tr es.
Proof.
  induction es as [|e es IH] using rev_ind; [done|].
  unfold run, searched in *. rewrite foldl_snoc, terms_step, IH, bind_app.
  f_equal.
Qed.

Lemma newest_step tr e s : newest s → newest (step tr e s).
Proof.
  assert (∀ s p id, newest s → newest (set_xhrs (alter (set_phase p) id) s)) as Hphase.
  { intros s0 p id H id'. simpl. rewrite length_alter. apply H. }
  assert (∀ s id readyState status response,
            newest s → newest (dispatch id readyState status response s)) as Hdispatch.
  { intros s0 id readyState status response H.
    destruct (dispatch_cases id readyState status response s0)
      as [->|[(x & results & _ & _ & _ & _ & _ & ->)|(x & _ & _ & _ & _ & ->)]];
      [done|by intros id'..]. }
  intros Hs. destruct e as [value|id readyState status response]; simpl.
  - unfold onChange. destruct (too_short value); [done|].
    unfold searchTrack. destruct (encodes tr value).
    + intros id. unfold HttpRequest. simpl. rewrite length_app. simpl.
      intros [= <-]. lia.
    + apply abort_request_preserves; [done| |done]. intros s0 id. apply Hdispatch.
  - apply readystatechange_preserves; [done| |done]. intros s0. apply Hdispatch.
Qed.

(** X9: whatever the transport does, [request] is empty or holds the request
    made last. *)
Theorem request_is_newest (tr : Transport) (es : list Event) (id : nat) :
  request (run tr es initial) = Some id →
  S id = length (xhrs (run tr es initial)).
Proof.
  revert id. change (newest (run tr es initial)).
  induction es as [|e es IH] using rev_ind; [done|].
  unfold run in *. rewrite foldl_snoc. by apply newest_step.
Qed.

Lemma request_is_newest_witness :
  S 1 = length (xhrs (run XMLHttpRequest [Change "abc"; Change "abcd"] initial)).
Proof. exact (request_is_newest XMLHttpRequest [Change "abc"; Change "abcd"] 1 eq_refl). Defined.

Lemma logged_once_alter (f : Xhr → Xhr) id s :
  (∀ x, onreadystatechange (f x) = true → onreadystatechange x = true) →
  logged_once s → logged_once (set_xhrs (alter f id) s).
Proof.
  intros Hf H id'. destruct (H id') as (H1 & H2 & H3).
  change (errors_of id' (set_xhrs (alter f id) s)) with (errors_of id' s).
  split; [done|]. split.
  - simpl. intros x. rewrite list_lookup_alter. case_decide; [subst|apply H2].
    destruct (xhrs s !! id') as [x'|]; [|done]. simpl. intros [= <-] Hh.
    apply (H2 x'); [done|]. by apply Hf.
  - simpl. by rewrite length_alter.
Qed.

Lemma logged_once_step tr e s : logged_once s → logged_once (step tr e s).
Proof.
  assert (∀ s p id, logged_once s → logged_once (set_xhrs (alter (set_phase p) id) s))
    as Hphase by (intros s0 p id; by apply logged_once_alter).
  assert (∀ s id readyState status response,
            logged_once s → logged_once (dispatch id readyState status response s))
    as Hdispatch.
  { intros s0 id readyState status response H.
    destruct (dispatch_cases id readyState status response s0)
      as [->|[(x & results & _ & _ & _ & _ & _ & ->)|(x & Hx & Hh & _ & _ & ->)]]; [done|..].
    - apply logged_once_alter; [done|]. exact H.
    - intros id'. destruct (H id') as (H1 & H2 & H3).
      change (errors_of id' (set_xhrs (alter clear_handler id) (complete (error id response s0))))
        with (filter (λ e : nat * Response, e.1 = id') (errors s0 ++ [(id, response)])).
      rewrite filter_app. fold (errors_of id' s0).
      change (xhrs (set_xhrs (alter clear_handler id) (complete (error id response s0))))
        with (alter clear_handler id (xhrs s0)).
      rewrite length_alter.
      destruct (decide (id = id')) as [<-|Hne].
      + rewrite (H2 x Hx Hh). rewrite filter_cons_True, filter_nil by done.
        split; [done|]. split.
        * intros x'. rewrite list_lookup_alter_eq, Hx. by intros [= <-].
        * intros Hlen. apply lookup_lt_Some in Hx. lia.
      + rewrite filter_cons_False, filter_nil, app_nil_r by done.
        split; [done|]. split; [|done].
        intros x'. rewrite list_lookup_alter_ne by done. apply H2. }
  intros Hs. destruct e as [value|id readyState status response]; simpl.
  - unfold onChange. destruct (too_short value); [done|].
    pose proof (abort_request_preserves logged_once tr Hphase
                  (λ s0 id0, Hdispatch s0 id0 DONE 0 None) s Hs) as Ha.
    unfold searchTrack. destruct (encodes tr value); [|exact Ha].
    intros id. destruct (Ha id) as (H1 & H2 & H3).
    change (errors_of id (HttpRequest value (abort_request tr s)))
      with (errors_of id (abort_request tr s)).
    split; [done|]. unfold HttpRequest; simpl. split.
    + intros x [Hx|[Hlen Hx]]%lookup_app_Some; [by apply H2|]. intros _. by apply H3.
    + rewrite length_app. simpl. intros Hlen. apply H3. lia.
  - apply readystatechange_preserves; [done| |done]. intros s0. apply Hdispatch.
Qed.

(** X10: whatever the transport does, the error callback logs at most one
    entry for a request. *)
Theorem one_error_per_request (tr : Transport) (es : list Event) (id : nat) :
  length (errors_of id (run tr es initial)) ≤ 1.
Proof.
  assert (logged_once (run tr es initial)) as H; [|by destruct (H id)].
  induction es as [|e es IH] using rev_ind.
  - intros id'. split; [simpl; lia|]. split; done.
  - unfold run in *. rewrite foldl_snoc. by apply logged_once_step.
Qed.

(** X11: a report with status 200 and no results in its body changes
    neither the results displayed nor the log, leaves [request] as it is and
    leaves every handler in place: [success] throws before [complete] and the
    reset of [onreadystatechange] are reached. *)
Theorem empty_body_is_ignored (tr : Transport) (id readyState : nat) (s : State) :
  let s' := step tr (ReadyStateChange id readyState 200 None) s in
  data s' = data s ∧ errors s' = errors s ∧ request s' = request s
  ∧ onreadystatechange <$> xhrs s' = onreadystatechange <$> xhrs s
  ∧ term <$> xhrs s' = term <$> xhrs s.
Proof.
  simpl. unfold readystatechange.
  destruct (xhrs s !! id) as [x|]; [|done].
  destruct (deliverable tr x); [|done].
  assert (∀ s0, dispatch id readyState 200 None s0 = s0) as ->.
  { intros s0. unfold dispatch, handler. destruct (xhrs s0 !! id) as [x0|]; [|done].
    destruct (onreadystatechange x0); [|done]. by destruct (readyState =? DONE). }
  destruct (_ && _); [|done]. simpl. split; [done|]. split; [done|]. split; [done|].
  split; apply list_eq; intros j; rewrite !list_lookup_fmap, list_lookup_alter;
    case_decide; subst; try done; by destruct (xhrs s !! j).
Qed.


(** What holds of the results displayed is kept by an event, if it holds of
    the texts of the records the event delivers. *)
Lemma data_step (P : string → Prop) tr e s :
  Forall P (data s) →
  (∀ id readyState status results,
     e = ReadyStateChange id readyState status (Some results) →
     Forall P (display_string <$> take MAX_RESULTS results)) →
  Forall P (data (step tr e s)).
Proof.
  intros Hs He.
  assert (∀ s p id, Forall P (data s) → Forall P (data (set_xhrs (alter (set_phase p) id) s)))
    as Hphase by done.
  destruct e as [value|id readyState status response]; simpl.
  - unfold onChange. destruct (too_short value); [by apply Forall_nil|].
    assert (data (searchTrack tr value s) = data (abort_request tr s)) as ->
      by (unfold searchTrack; by destruct (encodes tr value)).
    apply (abort_request_preserves (λ s', Forall P (data s')) tr); [done| |done].
    intros s0 id H.
    destruct (dispatch_cases id DONE 0 None s0)
      as [->|[(x & results & _ & _ & _ & _ & ? & _)|(x & _ & _ & _ & _ & ->)]]; done.
  - apply (readystatechange_preserves (λ s', Forall P (data s'))); [done| |done].
    intros s0 H.
    destruct (dispatch_cases id readyState status response s0)
      as [->|[(x & results & _ & _ & _ & _ & -> & ->)|(x & _ & _ & _ & _ & ->)]]; [done| |done].
    simpl. by eapply He.
Qed.

(** X12: whatever the transport does, the results displayed are never more
    than [MAX_RESULTS]. *)
Theorem results_bounded (tr : Transport) (es : list Event) :
  length (data (run tr es initial)) ≤ MAX_RESULTS.
Proof.
  induction es as [|e es IH] using rev_ind; [simpl; lia|].
  unfold run in *. rewrite foldl_snoc.
  set (s := foldl _ _ es) in *.
  destruct e as [value|id readyState status response].
  - simpl. unfold onChange. destruct (too_short value); [simpl; lia|].
    assert (data (searchTrack tr value s) = data (abort_request tr s)) as ->
      by (unfold searchTrack; by destruct (encodes tr value)).
    apply (abort_request_preserves (λ s', length (data s') ≤ MAX_RESULTS) tr); [done| |done].
    intros s0 id H.
    destruct (dispatch_cases id DONE 0 None s0)
      as [->|[(x & results & _ & _ & _ & _ & ? & _)|(x & _ & _ & _ & _ & ->)]]; done.
  - apply (readystatechange_preserves (λ s', length (data s') ≤ MAX_RESULTS)); [done| |done].
    intros s0 H.
    destruct (dispatch_cases id readyState status response s0)
      as [->|[(x & results & _ & _ & _ & _ & -> & ->)|(x & _ & _ & _ & _ & ->)]]; [done| |done].
    simpl. rewrite length_fmap, length_take. lia.
Qed.

End session_more.

(** ** The page *)

Section page.
Import Main Page.

Lemma debounced_settled (time : nat) (d : Helpers.State unit) :
  settled d →
  Helpers.debounced time () d
  = {| Helpers.now := Helpers.now d;
       Helpers.timeout := Some (Helpers.next_handle d);
       Helpers.timers := [{| Helpers.handle := Helpers.next_handle d;
                             Helpers.due := Helpers.now d + time;
                             Helpers.args := () |}];
       Helpers.next_handle := S (Helpers.next_handle d);
       Helpers.calls := Helpers.calls d |}.
Proof.
  intros Hd. unfold Helpers.debounced. f_equal.
  destruct Hd as [->|(t & -> & -> & _)]; [by destruct (Helpers.timeout d)|].
  simpl. rewrite filter_cons_False; [done|]. by intros H.
Qed.

Lemma input_wait_short tr v gap p :
  settled (debouncer p) → gap < DEBOUNCE_TIME →
  let p' := wait tr gap (input v p) in
  settled (debouncer p') ∧ value p' = v ∧ session p' = session p
  ∧ results_display p' = results_display p ∧ history p' = history p.
Proof.
  intros Hd Hgap. unfold wait, input.
  cbn [debouncer value session results_display history].
  rewrite (debounced_settled _ _ Hd). rewrite elapse_not_due by lia.
  cbn [Helpers.calls debouncer value session results_display history].
  rewrite Nat.sub_diag. simpl. split; [|done].
  right. eexists. split; [done|]. split; [done|]. simpl. lia.
Qed.

Lemma input_wait_long tr v pause p :
  settled (debouncer p) → DEBOUNCE_TIME ≤ pause →
  let p' := wait tr pause (input v p) in
  settled (debouncer p') ∧ value p' = v
  ∧ session p' = iTunes.onChange tr v (session p)
  ∧ results_display p' = results_display p ∧ history p' = history p.
Proof.
  intros Hd Hpause. unfold wait, input.
  cbn [debouncer value session results_display history].
  rewrite (debounced_settled _ _ Hd). rewrite elapse_due by lia.
  cbn [Helpers.calls debouncer value session results_display history].
  rewrite length_app. simpl length.
  replace (length (Helpers.calls (debouncer p)) + 1 - length (Helpers.calls (debouncer p)))
    with 1 by lia.
  simpl. split; [by left|done].
Qed.

Lemma typing_cons v gap l :
  typing ((v, gap) :: l) = Input v :: Wait gap :: typing l.
Proof. reflexivity. Qed.

Lemma run_typing tr l : ∀ p,
  settled (debouncer p) → Forall (λ x, x.2 < DEBOUNCE_TIME) l →
  let p' := run tr (typing l) p in
  settled (debouncer p') ∧ session p' = session p
  ∧ results_display p' = results_display p ∧ history p' = history p.
Proof.
  induction l as [|[v gap] l IH]; intros p Hd Hl; [done|].
  apply Forall_cons in Hl as [Hgap Hl]. simpl in Hgap.
  rewrite typing_cons. unfold run. simpl foldl.
  destruct (input_wait_short tr v gap p Hd Hgap) as (Hd' & _ & Hs & Hr & Hh).
  destruct (IH _ Hd' Hl) as (IH1 & IH2 & IH3 & IH4).
  unfold run in *. simpl in *. rewrite IH2, IH3, IH4. done.
Qed.

Lemma settled_step tr e p : settled (debouncer p) → settled (debouncer (step tr e p)).
Proof.
  intros Hd. destruct e as [v|d| | |target now]; simpl; try done.
  - rewrite (debounced_settled _ _ Hd). right. eexists. split; [done|].
    split; [done|]. simpl. unfold DEBOUNCE_TIME. lia.
  - destruct Hd as [Hd|(t & Ht & Hto & Hdue)].
    + rewrite elapse_idle by done. by left.
    + destruct (debouncer p) as [T to ts n c]. simpl in *. subst.
      destruct t as [h D a]. simpl in *.
      destruct (decide (D ≤ T + d)).
      * rewrite elapse_due by done. by left.
      * rewrite elapse_not_due by lia. right. eexists. split; [done|].
        split; [done|]. simpl. lia.
  - destruct target; simpl; try done.
    + by destruct (iTunes.data (session p) !! i).
    + by destruct (searchHistory.data (history p) !! j).
Qed.

Lemma settled_run tr es : ∀ p, settled (debouncer p) → settled (debouncer (run tr es p)).
Proof.
  induction es as [|e es IH]; intros p Hd; [done|]. apply IH. by apply settled_step.
Qed.

Lemma run_app tr es1 es2 p : run tr (es1 ++ es2) p = run tr es2 (run tr es1 p).
Proof. unfold run. by rewrite foldl_app. Qed.

(** X13: on the page, keystrokes that follow each other within the delay
    start no search; once the delay has passed after the last one, the change
    handler has run once, with the value of the last keystroke.  The history
    and the visibility of the results are as before. *)
Theorem typing_burst (tr : iTunes.Transport) (v0 r0 h0 : string) (now0 : nat)
    (es : list Event) (earlier : list (string * nat)) (last : string) (pause : nat) :
  Forall (λ x, x.2 < DEBOUNCE_TIME) earlier → DEBOUNCE_TIME ≤ pause →
  let p := run tr es (initial v0 r0 h0 now0) in
  let typed := run tr (typing earlier ++ [Input last]) p in
  session typed = session p
  ∧ session (step tr (Wait pause) typed) = iTunes.onChange tr last (session p)
  ∧ history (step tr (Wait pause) typed) = history p
  ∧ results_display (step tr (Wait pause) typed) = results_display p.
Proof.
  intros Hl Hpause p typed.
  assert (settled (debouncer p)) as Hd by (apply settled_run; by left).
  destruct (run_typing tr earlier p Hd Hl) as (Hd' & Hs & Hr & Hh).
  subst typed. rewrite run_app. set (p' := run tr (typing earlier) p) in *.
  change (step tr (Wait pause) (run tr [Input last] p')) with (wait tr pause (input last p')).
  destruct (input_wait_long tr last pause p' Hd' Hpause) as (_ & _ & Hs' & Hr' & Hh').
  rewrite Hs', Hr', Hh', Hs, Hr, Hh. done.
Qed.

Lemma typing_burst_witness :
  let p := initial "" "" "" 0 in
  let typed := run iTunes.XMLHttpRequest (typing [("a", 30); ("ab", 40)] ++ [Input "abc"]) p in
  iTunes.xhrs (session typed) = []
  ∧ iTunes.term <$> iTunes.xhrs (session (step iTunes.XMLHttpRequest (Wait 250) typed))
    = ["abc"].
Proof.
  cbv zeta.
  assert (Forall (λ x : string * nat, x.2 < DEBOUNCE_TIME) [("a", 30); ("ab", 40)]) as Hl
    by (repeat constructor; simpl; unfold DEBOUNCE_TIME; lia).
  assert (DEBOUNCE_TIME ≤ 250) as Hpause by (unfold DEBOUNCE_TIME; lia).
  destruct (typing_burst iTunes.XMLHttpRequest "" "" "" 0 [] [("a", 30); ("ab", 40)] "abc" 250
              Hl Hpause) as (Hs & Hs' & _).
  split.
  - etrans; [exact (f_equal iTunes.xhrs Hs)|]. reflexivity.
  - etrans; [exact (f_equal (λ s, iTunes.term <$> iTunes.xhrs s) Hs')|]. reflexivity.
Defined.

Lemma run_snoc_page tr es e p : run tr (es ++ [e]) p = step tr e (run tr es p).
Proof. unfold run. by rewrite foldl_snoc. Qed.

Lemma iter_onChange tr v n s :
  Nat.iter n (iTunes.onChange tr v) s
  = iTunes.run tr (replicate n (iTunes.Change v)) s.
Proof.
  revert s. induction n as [|n IH]; intros s; [done|].
  rewrite Nat.iter_succ_r, IH. done.
Qed.

(** The session of the page is a state the events of the session lead to:
    the changes are values the user typed, the reports those of the
    transport. *)
Lemma session_of_page (tr : iTunes.Transport) (v0 r0 h0 : string) (now0 : nat)
    (es : list Event) :
  ∃ es' : list iTunes.Event,
    session (run tr es (initial v0 r0 h0 now0)) = iTunes.run tr es' iTunes.initial
    ∧ Forall (λ e',
        match e' with
        | iTunes.Change v => Input v ∈ es
        | iTunes.ReadyStateChange id readyState status response =>
            ReadyStateChange id readyState status response ∈ es
        end) es'.
Proof.
  assert (∃ es' : list iTunes.Event,
    session (run tr es (initial v0 r0 h0 now0)) = iTunes.run tr es' iTunes.initial
    ∧ Forall (λ e',
        match e' with
        | iTunes.Change v => Input v ∈ es
        | iTunes.ReadyStateChange id readyState status response =>
            ReadyStateChange id readyState status response ∈ es
        end) es'
    ∧ (Helpers.timers (debouncer (run tr es (initial v0 r0 h0 now0))) ≠ [] →
       Input (value (run tr es (initial v0 r0 h0 now0))) ∈ es)) as (es' & ? & ? & _);
    [|by exists es'].
  induction es as [|e es (es' & Hs & Hes & Hv)] using rev_ind.
  - exists []. split; [done|]. split; [done|]. simpl. done.
  - rewrite run_snoc_page. set (p := run tr es (initial v0 r0 h0 now0)) in *.
    assert (∀ es', Forall (λ e',
        match e' with
        | iTunes.Change v => Input v ∈ es
        | iTunes.ReadyStateChange id readyState status response =>
            ReadyStateChange id readyState status response ∈ es
        end) es' →
      Forall (λ e',
        match e' with
        | iTunes.Change v => Input v ∈ es ++ [e]
        | iTunes.ReadyStateChange id readyState status response =>
            ReadyStateChange id readyState status response ∈ es ++ [e]
        end) es') as Hmono.
    { intros l Hl. eapply Forall_impl; [exact Hl|].
      intros [v|????] H; apply elem_of_app; by left. }
    assert (settled (debouncer p)) as Hd by (apply settled_run; by left).
    destruct e as [v|d|id readyState status response| |target now].
    + exists es'. split; [done|]. split; [by apply Hmono|].
      intros _. simpl. apply elem_of_app. right. apply list_elem_of_here.
    + cbn [step]. unfold wait. cbn [session debouncer value].
      set (runs := length _ - length _).
      exists (es' ++ replicate runs (iTunes.Change (value p))).
      split; [|split].
      * rewrite iter_onChange, Hs. unfold iTunes.run. by rewrite foldl_app.
      * apply Forall_app. split; [by apply Hmono|].
        destruct (decide (Helpers.timers (debouncer p) = [])) as [Hidle|Hbusy].
        -- subst runs. rewrite elapse_idle by done. simpl. rewrite Nat.sub_diag. done.
        -- apply Forall_replicate. apply elem_of_app. left. by apply Hv.
      * intros Hbusy. apply elem_of_app. left. apply Hv. intros Hidle.
        apply Hbusy. by rewrite elapse_idle.
    + exists (es' ++ [iTunes.ReadyStateChange id readyState status response]).
      simpl. split; [|split].
      * rewrite Hs. unfold iTunes.run. by rewrite foldl_snoc.
      * apply Forall_app. split; [by apply Hmono|]. apply Forall_singleton.
        apply elem_of_app. right. apply list_elem_of_here.
      * intros Hbusy. apply elem_of_app. left. by apply Hv.
    + exists es'. split; [done|]. split; [by apply Hmono|].
      intros Hbusy. apply elem_of_app. left. by apply Hv.
    + exists es'.
      assert (session (step tr (Click target now) p) = session p
              ∧ debouncer (step tr (Click target now) p) = debouncer p
              ∧ value (step tr (Click target now) p) = value p) as (-> & -> & ->).
      { destruct target; simpl; try done.
        - by destruct (iTunes.data (session p) !! i).
        - by destruct (searchHistory.data (history p) !! j). }
      split; [done|]. split; [by apply Hmono|].
      intros Hbusy. apply elem_of_app. left. by apply Hv.
Qed.

(** X14: the session of the page is a state that changes and reports lead
    the session to, each change being a value the user typed and each report
    one of the transport. *)
Theorem page_session (tr : iTunes.Transport) (v0 r0 h0 : string) (now0 : nat)
    (es : list Event) :
  ∃ es' : list iTunes.Event,
    session (run tr es (initial v0 r0 h0 now0)) = iTunes.run tr es' iTunes.initial
    ∧ Forall (λ e',
        match e' with
        | iTunes.Change v => Input v ∈ es
        | iTunes.ReadyStateChange id readyState status response =>
            ReadyStateChange id readyState status response ∈ es
        end) es'.
Proof. apply session_of_page. Qed.

(** X18: on the page, with a transport whose [abort()] is final, at most one
    request is in flight, and it is the one [request] holds. *)
Theorem page_one_request (tr : iTunes.Transport) (v0 r0 h0 : string) (now0 : nat)
    (es : list Event) (i j : nat) :
  iTunes.abort_is_final tr = true →
  let s := session (run tr es (initial v0 r0 h0 now0)) in
  iTunes.phase_of s i = Some iTunes.InFlight →
  iTunes.phase_of s j = Some iTunes.InFlight →
  i = j ∧ iTunes.request s = Some i.
Proof.
  intros Hs s Hi Hj. subst s.
  destruct (session_of_page tr v0 r0 h0 now0 es) as (es' & Hes & _).
  rewrite Hes in *.
  assert (iTunes.consistent tr (iTunes.run tr es' iTunes.initial)) as Hc
    by (apply run_consistent; [done|apply consistent_initial]).
  pose proof (in_flight_is_request tr _ i Hc Hi) as Hri.
  pose proof (in_flight_is_request tr _ j Hc Hj) as Hrj.
  split; [congruence|done].
Qed.

Lemma page_one_request_witness :
  let s := session (run iTunes.XMLHttpRequest
                      [Input "abc"; Wait 250; Input "abcd"; Wait 300]
                      (initial "" "" "" 0)) in
  iTunes.phase_of s 1 = Some iTunes.InFlight ∧ iTunes.request s = Some 1.
Proof.
  cbv zeta. split; [reflexivity|].
  apply (page_one_request iTunes.XMLHttpRequest "" "" "" 0
           [Input "abc"; Wait 250; Input "abcd"; Wait 300] 1 1 eq_refl eq_refl eq_refl).
Defined.

(** X15: the page changes the history only through [add] and [remove]: its
    titles are unique, and it is shown whenever it has an entry. *)
Theorem page_history (tr : iTunes.Transport) (v0 r0 h0 : string) (now0 : nat)
    (es : list Event) :
  let p := run tr es (initial v0 r0 h0 now0) in
  (∃ ops, history p = searchHistory.run ops (searchHistory.initial h0))
  ∧ NoDup (searchHistory.titles (history p))
  ∧ (searchHistory.data (history p) ≠ [] → searchHistory.display (history p) = "block").
Proof.
  intros p.
  assert (∃ ops, history p = searchHistory.run ops (searchHistory.initial h0)) as [ops Hops].
  { subst p. induction es as [|e es [ops Hops]] using rev_ind; [by exists []|].
    rewrite run_snoc_page. set (p := run tr es (initial v0 r0 h0 now0)) in *.
    destruct e as [v|d|id readyState status response| |[|i|j|] now]; try by exists ops.
    - simpl. destruct (iTunes.data (session p) !! i) as [item|]; [|by exists ops].
      exists (ops ++ [searchHistory.Add now item]). simpl. by rewrite run_snoc, Hops.
    - simpl. destruct (searchHistory.data (history p) !! j) as [entry|]; [|by exists ops].
      exists (ops ++ [searchHistory.Remove (searchHistory.title entry)]).
      simpl. by rewrite run_snoc, Hops. }
  split; [by exists ops|]. split; [apply reachable_unique; by exists h0, ops|].
  rewrite Hops. apply invisible_or_block.
Qed.

Lemma page_history_witness :
  let track := {| artistName := "A"; trackName := "T1" |} in
  let p := run iTunes.XMLHttpRequest
             [Input "abc"; Wait 250; ReadyStateChange 0 4 200 (Some [track]);
              Click (OnResult 0) 7; Click (OnResult 0) 8]
             (initial "" "" "" 0) in
  searchHistory.titles (history p) = ["A - T1"]
  ∧ searchHistory.display (history p) = "block".
Proof.
  cbv zeta. split; [reflexivity|].
  apply (page_history iTunes.XMLHttpRequest "" "" "" 0
           [Input "abc"; Wait 250;
            ReadyStateChange 0 4 200 (Some [{| artistName := "A"; trackName := "T1" |}]);
            Click (OnResult 0) 7; Click (OnResult 0) 8]).
  vm_compute. discriminate.
Defined.

Lemma display_step tr e p :
  keeps_display e = true → results_display (step tr e p) = results_display p.
Proof. destruct e as [| | | |[] ?]; done. Qed.

(** X16: typing, time, reports of the transport and clicks on the input
    leave the visibility of the results list as it is, whether there are
    results or not: it is shown after a focus and hidden after a click
    anywhere but on the input. *)
Theorem results_visibility (tr : iTunes.Transport) (es : list Event) (p : State) :
  forallb keeps_display es = true →
  results_display (run tr es p) = results_display p
  ∧ results_display (run tr (Focus :: es) p) = "block"
  ∧ ∀ target now, target ≠ OnInput →
      results_display (run tr (Click target now :: es) p) = "none".
Proof.
  intros Hes.
  assert (∀ p, results_display (run tr es p) = results_display p) as Hkeep.
  { clear p. induction es as [|e es IH]; intros p; [done|].
    simpl in Hes. apply andb_true_iff in Hes as [He Hes].
    unfold run in *. simpl. rewrite IH by done. by apply display_step. }
  split; [done|]. split.
  - unfold run in *. simpl. by rewrite Hkeep.
  - intros target now Ht. unfold run in *. simpl. rewrite Hkeep.
    by destruct target.
Qed.

Lemma results_visibility_witness :
  let es := [Input "abc"; Wait 250; ReadyStateChange 0 4 200 (Some []); Click OnInput 0] in
  results_display (run iTunes.XMLHttpRequest (Focus :: es) (initial "" "" "" 0)) = "block"
  ∧ results_display (run iTunes.XMLHttpRequest (Click Elsewhere 0 :: es) (initial "" "" "" 0))
    = "none".
Proof.
  cbv zeta.
  destruct (results_visibility iTunes.XMLHttpRequest
              [Input "abc"; Wait 250; ReadyStateChange 0 4 200 (Some []); Click OnInput 0]
              (initial "" "" "" 0) eq_refl) as (_ & Hshown & Hhidden).
  split; [exact Hshown|]. by apply Hhidden.
Defined.

Lemma offered_snoc es e : offered (es ++ [e]) = offered es ++ offered [e].
Proof. unfold offered. by rewrite bind_app. Qed.

(** X17: every result displayed and every title of the history is the text
    of a record the transport has delivered. *)
Theorem history_from_results (tr : iTunes.Transport) (v0 r0 h0 : string) (now0 : nat)
    (es : list Event) :
  let p := run tr es (initial v0 r0 h0 now0) in
  Forall (λ item, item ∈ offered es) (iTunes.data (session p))
  ∧ Forall (λ t, t ∈ offered es) (searchHistory.titles (history p)).
Proof.
  induction es as [|e es [Hdata Hhist]] using rev_ind; [done|].
  rewrite run_snoc_page. set (p := run tr es (initial v0 r0 h0 now0)) in *.
  intros p'. subst p'. rewrite offered_snoc.
  assert (∀ l, Forall (λ x, x ∈ offered es) l →
               Forall (λ x, x ∈ offered es ++ offered [e]) l) as Hmono.
  { intros l Hl. eapply Forall_impl; [exact Hl|]. intros x Hx. apply elem_of_app. by left. }
  apply Hmono in Hdata, Hhist.
  destruct e as [v|d|id readyState status response| |target now];
    try (split; [exact Hdata|exact Hhist]).
  - split; [|exact Hhist]. cbn [step]. unfold wait. cbn [session].
    generalize (length (Helpers.calls (Helpers.elapse d (debouncer p)))
                - length (Helpers.calls (debouncer p))).
    intros n. induction n as [|n IH]; [exact Hdata|]. simpl.
    apply (data_step _ tr (iTunes.Change (value p))); [exact IH|]. by intros.
  - split; [|exact Hhist]. simpl.
    apply (data_step _ tr (iTunes.ReadyStateChange id readyState status response));
      [exact Hdata|].
    intros id' readyState' status' results [= _ _ _ ->].
    apply Forall_forall. intros x Hx. apply elem_of_app. right.
    unfold offered. simpl. rewrite app_nil_r.
    apply list_elem_of_fmap. apply list_elem_of_fmap in Hx as (r & -> & Hr).
    exists r. split; [done|]. apply elem_of_take in Hr as (k & Hk & _).
    apply list_elem_of_lookup. by exists k.
  - assert (session (step tr (Click target now) p) = session p) as ->.
    { destruct target; simpl; try done.
      - by destruct (iTunes.data (session p) !! i).
      - by destruct (searchHistory.data (history p) !! j). }
    split; [exact Hdata|].
    destruct target as [|i|j|]; simpl; try exact Hhist.
    + destruct (iTunes.data (session p) !! i) as [item|] eqn:Hi; [|exact Hhist]. simpl.
      unfold searchHistory.titles. rewrite add_data. case_bool_decide; [exact Hhist|].
      rewrite fmap_app. apply Forall_app. split; [exact Hhist|].
      apply Forall_singleton. simpl. rewrite Forall_forall in Hdata. apply Hdata.
      apply list_elem_of_lookup. by exists i.
    + destruct (searchHistory.data (history p) !! j) as [entry|]; [|exact Hhist]. simpl.
      apply Forall_forall. intros t Ht. rewrite Forall_forall in Hhist. apply Hhist.
      eapply elem_of_sublist; [exact Ht|]. apply fmap_sublist.
      apply (remove_loop_frame (searchHistory.title entry)).
Qed.

End page.
